(** * vita-monit: frame decoder, response builder, device registry, broker bridge

    A shallow embedding of [src/ipc/protocol-utils.ts] (class [ProtocolUtils]),
    of the [DeviceManager] class and of the three broker handlers registered by
    [startMqttBroker] in [src/ipc/main.ts].

    Conventions of the embedding.
    - A Node [Buffer] is a [list byte]; a byte read as a number is a [Z].
    - A JavaScript exception is the [Throw] case of [completion]; code that
      mutates the device manager and may throw runs in the monad [M], whose
      state survives a throw, as a mutated object does.
    - A JavaScript object is a finite map from property names to [jsval];
      a property can be present with the value [JUndefined], which is not the
      same object as one where the property is absent.
    - The wall clock and the process id are the environment: the clock is an
      oracle carried by the world. The Electron window is the list of
      messages delivered to it; the identifier [mainWindow] through which the
      handlers reach it is resolved as the source binds it. *)

From Stdlib Require Import ZArith String Ascii Strings.Byte Lia.
From stdpp Require Import base option list gmap strings fin_maps.

Open Scope string_scope.
Open Scope Z_scope.

(** ** Bytes and buffers *)

Abbreviation Buffer := (list byte).

Definition u8 (b : byte) : Z := Z.of_N (Byte.to_N b).

Definition byte_of_Z (z : Z) : byte :=
  match Byte.of_N (Z.to_N z) with
  | Some b => b
  | None => x00
  end.

(** [buf.slice(start, end)] for non-negative indices: both ends are clamped to
    the length, and an end before the start gives the empty buffer. *)
Definition slice (start stop : nat) (buf : Buffer) : Buffer :=
  take (stop - start)%nat (drop start buf).

(** ** Exceptions *)

Inductive exn :=
| RangeError (msg : string)
| TypeError (msg : string)
| ReferenceError (msg : string).

Inductive completion (A : Type) :=
| Normal (a : A)
| Throw (e : exn).
Arguments Normal {A} a.
Arguments Throw {A} e.

#[global] Instance completion_ret : MRet completion := @Normal.
#[global] Instance completion_bind : MBind completion := λ A B f c,
  match c with
  | Normal a => f a
  | Throw e => Throw e
  end.
#[global] Instance completion_fmap : FMap completion := λ A B f c,
  match c with
  | Normal a => Normal (f a)
  | Throw e => Throw e
  end.

Definition returns {A} (c : completion A) : Prop := ∃ a, c = Normal a.

(** ** Strings: hexadecimal and ASCII codecs of [Buffer] *)

Definition digit_char (d : Z) : ascii :=
  match String.get (Z.to_nat d) "0123456789abcdefghijklmnopqrstuvwxyz" with
  | Some c => c
  | None => "?"%char
  end.

(** [buf.toString('hex')]: two lowercase digits per byte. *)
Definition hex_of_byte (b : byte) : string :=
  String (digit_char (u8 b / 16)) (String (digit_char (u8 b mod 16)) "").

Definition Buffer_toString_hex (buf : Buffer) : string :=
  foldr (λ b rest, hex_of_byte b +:+ rest) "" buf.

Definition hex_value (c : ascii) : option Z :=
  let n := Z.of_nat (nat_of_ascii c) in
  if (48 <=? n) && (n <=? 57) then Some (n - 48)
  else if (97 <=? n) && (n <=? 102) then Some (n - 87)
  else if (65 <=? n) && (n <=? 70) then Some (n - 55)
  else None.

(** [Buffer.from(s, 'hex')]: pairs of hexadecimal digits are decoded from the
    left; decoding stops at the first pair that is not two digits, and a
    trailing single character is dropped. *)
Fixpoint Buffer_from_hex (s : string) : Buffer :=
  match s with
  | String hi (String lo rest) =>
      match hex_value hi, hex_value lo with
      | Some h, Some l => byte_of_Z (16 * h + l) :: Buffer_from_hex rest
      | _, _ => []
      end
  | _ => []
  end.

(** [buf.toString('ascii')]: the high bit of every byte is cleared. *)
Definition Buffer_toString_ascii (buf : Buffer) : string :=
  string_of_list_ascii
    ((λ b, ascii_of_nat (Z.to_nat (Z.land (u8 b) 127))) <$> buf).

(** [s.padStart(n, '0')]. *)
Definition padStart0 (n : nat) (s : string) : string :=
  string_of_list_ascii (replicate (n - String.length s)%nat "0"%char) +:+ s.

(** [s.replace(/:/g, '')]. *)
Fixpoint strip_colons (s : string) : string :=
  match s with
  | "" => ""
  | String c rest =>
      if Ascii.eqb c ":"%char then strip_colons rest
      else String c (strip_colons rest)
  end.

(** ** [Number.prototype.toString(radix)]

    ECMAScript, Number.prototype.toString: when the argument is not
    [undefined] it is converted with ToIntegerOrInfinity, and a result outside
    2..36 raises a RangeError. ToIntegerOrInfinity goes through ToNumber, and
    NaN becomes 0. *)

Inductive radix_arg :=
| RadixUndefined
| RadixNum (n : Z)
| RadixStr (s : string).

Definition is_decimal_digit (c : ascii) : bool :=
  let n := nat_of_ascii c in (48 <=? n)%nat && (n <=? 57)%nat.

Fixpoint decimal_value (acc : Z) (s : string) : option Z :=
  match s with
  | "" => Some acc
  | String c rest =>
      if is_decimal_digit c
      then decimal_value (10 * acc + (Z.of_nat (nat_of_ascii c) - 48)) rest
      else None
  end.

(** ToNumber on a string, restricted to what the radix argument needs: the
    empty string is 0 and a run of decimal digits is its value; any other
    string is taken as NaN, written [None], which is what ToNumber gives for
    'hex'. *)
Definition StringToNumber (s : string) : option Z := decimal_value 0 s.

Definition ToIntegerOrInfinity (r : radix_arg) : Z :=
  match r with
  | RadixUndefined => 0
  | RadixNum n => n
  | RadixStr s => default 0 (StringToNumber s)
  end.

Fixpoint digits_in_radix (fuel : nat) (radix n : Z) : string :=
  match fuel with
  | O => ""
  | S fuel' =>
      if n <? radix then String (digit_char n) ""
      else digits_in_radix fuel' radix (n / radix)
             +:+ String (digit_char (n mod radix)) ""
  end.

(** The receiver is an integer Number; a byte needs at most 8 digits. *)
Definition Number_toString (n : Z) (radix : radix_arg) : completion string :=
  let radixMV := match radix with
                 | RadixUndefined => 10
                 | _ => ToIntegerOrInfinity radix
                 end in
  if (radixMV <? 2) || (36 <? radixMV)
  then Throw (RangeError "toString() radix must be between 2 and 36")
  else Normal (if n <? 0
               then "-" +:+ digits_in_radix (S (Z.to_nat (Z.log2 (- n)))) radixMV (- n)
               else digits_in_radix (S (Z.to_nat (Z.log2 n))) radixMV n).

(** ** ProtocolUtils *)

Module FRAME_TYPE.
Definition BOOT_VERSION : Z := 0xAA44.
Definition HEALTH_DATA : Z := 0xAA55.
Definition ALARM_DATA : Z := 0xAA77.
End FRAME_TYPE.

Module RESPONSE_STATUS.
Definition FAIL : Z := 0x00.
Definition SUCCESS : Z := 0x01.
End RESPONSE_STATUS.

Module UPGRADE_STATUS.
Definition NO_UPGRADE : Z := 0x00.
Definition NEED_UPGRADE : Z := 0x01.
End UPGRADE_STATUS.

Definition PACKET_TAIL : Z := 0x0D.

(** Buffer readers. Node raises a RangeError when the offset leaves the
    buffer. *)
Definition out_of_range {A} : completion A :=
  Throw (RangeError "ERR_OUT_OF_RANGE").

Definition readUInt8 (buf : Buffer) (off : nat) : completion Z :=
  match buf !! off with
  | Some b => Normal (u8 b)
  | None => out_of_range
  end.

Definition readUInt16BE (buf : Buffer) (off : nat) : completion Z :=
  match buf !! off, buf !! S off with
  | Some b0, Some b1 => Normal (u8 b0 * 256 + u8 b1)
  | _, _ => out_of_range
  end.

Definition readUInt32BE (buf : Buffer) (off : nat) : completion Z :=
  match buf !! off, buf !! (off + 1)%nat, buf !! (off + 2)%nat, buf !! (off + 3)%nat with
  | Some b0, Some b1, Some b2, Some b3 =>
      Normal (u8 b0 * 2 ^ 24 + u8 b1 * 2 ^ 16 + u8 b2 * 2 ^ 8 + u8 b3)
  | _, _, _, _ => out_of_range
  end.

Definition readUInt32LE (buf : Buffer) (off : nat) : completion Z :=
  match buf !! off, buf !! (off + 1)%nat, buf !! (off + 2)%nat, buf !! (off + 3)%nat with
  | Some b0, Some b1, Some b2, Some b3 =>
      Normal (u8 b0 + u8 b1 * 2 ^ 8 + u8 b2 * 2 ^ 16 + u8 b3 * 2 ^ 24)
  | _, _, _, _ => out_of_range
  end.

(** Two's complement reading of the big-endian word. *)
Definition readInt32BE (buf : Buffer) (off : nat) : completion Z :=
  w ← readUInt32BE buf off;
  mret (if w <? 2 ^ 31 then w else w - 2 ^ 32).

(** [parseHeader]: [null] is [None]. *)
Definition parseHeader (buffer : Buffer) : completion (option Z) :=
  if (length buffer <? 2)%nat then mret None
  else Some <$> readUInt16BE buffer 0.

(** [_parseMAC]: [Array.from(macBuffer)] is the list of byte values; the
    callback of [map] calls [toString] on a Number with the argument 'hex'. *)
Definition _parseMAC (macBuffer : Buffer) : completion string :=
  parts ← mapM (λ byte, padStart0 2 <$> Number_toString (u8 byte) (RadixStr "hex"))
               macBuffer;
  mret (String.concat ":" parts).

(** [_parseTimestamp]: the four bytes are read little-endian, and the seconds
    are rendered by [Date.prototype.toLocaleString]. The rendering depends on
    the host's time zone and locale data, so the rendered string is kept as
    the term [LocaleString epoch_ms locale]. *)
Inductive date_string :=
| LocaleString (epoch_ms : Z) (locale : option string).

Definition _parseTimestamp (timestampBuffer : Buffer) : completion date_string :=
  timestamp ← readUInt32LE timestampBuffer 0;
  mret (LocaleString (timestamp * 1000) (Some "zh-CN")).

(** A JavaScript Number: an integer, or the quotient of two integers computed
    in double precision, which is kept as the pair and not rounded. *)
Inductive number :=
| Int (n : Z)
| Quot (n d : Z).

Definition _parseTemperature (tempBuffer : Buffer) : completion number :=
  temp ← readInt32BE tempBuffer 0;
  mret (Quot temp 10).

Definition _parseWearStatus (statusByte : Z) : string :=
  if Z.land statusByte 0x01 =? 0x01 then "已佩戴" else "未佩戴".

Definition _parseAlarmType (alarmByte : Z) : list string :=
  let alarms : list string := [] in
  let alarms := if Z.land alarmByte 0x01 =? 0 then alarms else (alarms ++ ["低电量报警"])%list in
  let alarms := if Z.land alarmByte 0x02 =? 0 then alarms else (alarms ++ ["SOS报警"])%list in
  if (0 <? length alarms)%nat then alarms else ["未知报警"].

(** The objects the three parsers return. *)
Record BootVersionFrame := {
  boot_frameType : Z;
  boot_mac : string;
  softwareVersion : string;
  boot_rawData : string
}.

Record HealthData := {
  timestamp : date_string;
  frameCount : Z;
  heartRate : Z;
  bloodOxygen : Z;
  wearStatus : string;
  wristTemp : number;
  bodyTemp : number;
  wifiMac : string
}.

Record HealthDataFrame := {
  health_frameType : Z;
  health_mac : string;
  battery : Z;
  packetSeq : Z;
  health_packetLength : Z;
  health_rawData : string;
  healthData : option HealthData
}.

Record AlarmHealthData := {
  alarm_heartRate : Z;
  alarm_bloodOxygen : Z;
  alarm_wearStatus : string
}.

Record AlarmDataFrame := {
  alarm_frameType : Z;
  alarm_mac : string;
  alarm_packetLength : Z;
  alarmType : list string;
  alarm_rawData : string;
  alarm_healthData : option AlarmHealthData
}.

(** [buffer[i]]: [undefined] past the end. *)
Definition index (buffer : Buffer) (i : nat) : option Z := u8 <$> buffer !! i.

(** [x !== PACKET_TAIL]. *)
Definition is_not_tail (x : option Z) : bool :=
  match x with
  | Some v => negb (v =? PACKET_TAIL)
  | None => true
  end.

Definition parseBootVersionFrame (buffer : Buffer) : completion (option BootVersionFrame) :=
  if negb (length buffer =? 12)%nat || is_not_tail (index buffer 11) then mret None
  else
    mac ← _parseMAC (slice 2 8 buffer);
    mret (Some {| boot_frameType := FRAME_TYPE.BOOT_VERSION;
                  boot_mac := mac;
                  softwareVersion := Buffer_toString_ascii (slice 8 11 buffer);
                  boot_rawData := Buffer_toString_hex buffer |}).

Definition parseHealthDataFrame (buffer : Buffer) : completion (option HealthDataFrame) :=
  if (length buffer <? 13)%nat || is_not_tail (index buffer (length buffer - 1)) then mret None
  else
    mac ← _parseMAC (slice 2 8 buffer);
    battery ← readUInt8 buffer 8;
    packetSeq ← readUInt8 buffer 9;
    packetLength ← readUInt16BE buffer 10;
    let baseInfo healthData :=
      {| health_frameType := FRAME_TYPE.HEALTH_DATA;
         health_mac := mac;
         battery := battery;
         packetSeq := packetSeq;
         health_packetLength := packetLength;
         health_rawData := Buffer_toString_hex buffer;
         healthData := healthData |} in
    let healthBlock := slice 12 (length buffer - 1) buffer in
    if (length healthBlock <? 24)%nat then mret (Some (baseInfo None))
    else
      timestamp ← _parseTimestamp (slice 2 6 healthBlock);
      frameCount ← readUInt32BE healthBlock 6;
      heartRate ← readUInt8 healthBlock 10;
      bloodOxygen ← readUInt8 healthBlock 11;
      wearByte ← readUInt8 healthBlock 12;
      wristTemp ← _parseTemperature (slice 13 17 healthBlock);
      bodyTemp ← _parseTemperature (slice 17 21 healthBlock);
      wifiMac ← _parseMAC (slice 21 27 healthBlock);
      mret (Some (baseInfo (Some {| timestamp := timestamp;
                                    frameCount := frameCount;
                                    heartRate := heartRate;
                                    bloodOxygen := bloodOxygen;
                                    wearStatus := _parseWearStatus wearByte;
                                    wristTemp := wristTemp;
                                    bodyTemp := bodyTemp;
                                    wifiMac := wifiMac |}))).

Definition parseAlarmDataFrame (buffer : Buffer) : completion (option AlarmDataFrame) :=
  if (length buffer <? 13)%nat || is_not_tail (index buffer (length buffer - 1)) then mret None
  else
    mac ← _parseMAC (slice 2 8 buffer);
    packetLength ← readUInt16BE buffer 8;
    alarmByte ← readUInt8 buffer 10;
    let baseInfo healthData :=
      {| alarm_frameType := FRAME_TYPE.ALARM_DATA;
         alarm_mac := mac;
         alarm_packetLength := packetLength;
         alarmType := _parseAlarmType alarmByte;
         alarm_rawData := Buffer_toString_hex buffer;
         alarm_healthData := healthData |} in
    let healthBlock := slice 11 (length buffer - 1) buffer in
    if (24 <=? length healthBlock)%nat then
      heartRate ← readUInt8 healthBlock 10;
      bloodOxygen ← readUInt8 healthBlock 11;
      wearByte ← readUInt8 healthBlock 12;
      mret (Some (baseInfo (Some {| alarm_heartRate := heartRate;
                                    alarm_bloodOxygen := bloodOxygen;
                                    alarm_wearStatus := _parseWearStatus wearByte |})))
    else mret (Some (baseInfo None)).

(** [generateResponseFrame]: [frameType] is what [parseHeader] returned, a
    number or [null]; the [switch] compares with [===]. *)
Definition generateResponseFrame (mac : string) (frameType : option Z) : option Buffer :=
  let macBuffer := Buffer_from_hex mac in
  match frameType with
  | Some t =>
      if t =? FRAME_TYPE.BOOT_VERSION then
        Some ([xaa; x44] ++ macBuffer
                ++ [byte_of_Z UPGRADE_STATUS.NO_UPGRADE] ++ [x00] ++ [byte_of_Z PACKET_TAIL])%list
      else if t =? FRAME_TYPE.HEALTH_DATA then
        Some ([xaa; x55] ++ macBuffer
                ++ [byte_of_Z RESPONSE_STATUS.SUCCESS] ++ [byte_of_Z PACKET_TAIL])%list
      else if t =? FRAME_TYPE.ALARM_DATA then
        Some ([xaa; x77] ++ macBuffer
                ++ [byte_of_Z RESPONSE_STATUS.SUCCESS] ++ [byte_of_Z PACKET_TAIL])%list
      else None
  | None => None
  end.

(** ** JavaScript values held by device records *)

#[warnings="-register-all"] Inductive jsval :=
| JUndefined
| JNull
| JNum (x : number)
| JStr (s : string)
| JTime (t : date_string)
| JArr (xs : list string)
| JObj (fields : list (string * jsval)).

Abbreviation object := (gmap string jsval).

(** [o.k]: reading an absent property gives [undefined]. *)
Definition prop (o : object) (k : string) : jsval := default JUndefined (o !! k).

(** ToBoolean. A rendered date is a non-empty string; arrays and objects are
    truthy whatever they hold. *)
Definition ToBoolean (v : jsval) : bool :=
  match v with
  | JUndefined | JNull => false
  | JNum (Int n) => negb (n =? 0)
  | JNum (Quot n d) => negb (n =? 0)
  | JStr s => negb (String.eqb s "")
  | JTime _ => true
  | JArr _ => true
  | JObj _ => true
  end.

(** [v.join(',')]: only an array has [join]; calling the missing method of
    any other value raises a TypeError. *)
Definition join (v : jsval) : completion string :=
  match v with
  | JArr xs => Normal (String.concat "," xs)
  | _ => Throw (TypeError "data.alarm.join is not a function")
  end.

(** ** The world: device manager, clock, window and broker *)

Record LogEntry := {
  time : date_string;
  type : string;
  content : string
}.

Record DeviceManager := {
  devices : gmap string object;
  logs : list LogEntry
}.

(** [new DeviceManager()]. *)
Definition DeviceManager_new : DeviceManager := {| devices := ∅; logs := [] |}.

Inductive parsed :=
| ParsedBoot (f : BootVersionFrame)
| ParsedHealth (f : HealthDataFrame)
| ParsedAlarm (f : AlarmDataFrame)
| ParsedError (error rawData : string).

Inductive ipc_payload :=
| DeviceInfo (device : option object)
| DataReceived (clientId rawData : string) (parsedResult : option parsed) (time : date_string)
| DataSent (clientId rawData : string) (time : date_string).

Record ipc_message := {
  channel : string;
  payload : ipc_payload
}.

Record publication := {
  topic : string;
  pub_payload : Buffer;
  qos : Z;
  retain : bool
}.

(** [clock k] is the epoch time, in milliseconds, that the [k]-th evaluation of
    [new Date()] observes; [reads] counts the evaluations so far. *)
Record World := {
  deviceManager : DeviceManager;
  window : list ipc_message;
  broker : list publication;
  clock : nat → Z;
  reads : nat
}.

Definition World_new (clock : nat → Z) : World :=
  {| deviceManager := DeviceManager_new; window := []; broker := [];
     clock := clock; reads := 0 |}.

Definition set_deviceManager (f : DeviceManager → DeviceManager) (w : World) : World :=
  {| deviceManager := f (deviceManager w); window := window w; broker := broker w;
     clock := clock w; reads := reads w |}.

Definition set_devices (f : gmap string object → gmap string object)
    (dm : DeviceManager) : DeviceManager :=
  {| devices := f (devices dm); logs := logs dm |}.

Definition set_logs (f : list LogEntry → list LogEntry) (dm : DeviceManager) : DeviceManager :=
  {| devices := devices dm; logs := f (logs dm) |}.

(** State and exceptions: the state reached when the exception was raised is
    kept. *)
Definition M (A : Type) : Type := World → completion A * World.

#[global] Instance M_ret : MRet M := λ A a w, (Normal a, w).
#[global] Instance M_bind : MBind M := λ A B f m w,
  match m w with
  | (Normal a, w') => f a w'
  | (Throw e, w') => (Throw e, w')
  end.

Definition lift {A} (c : completion A) : M A := λ w, (c, w).

Definition get_deviceManager : M DeviceManager := λ w, (Normal (deviceManager w), w).

Definition modify (f : DeviceManager → DeviceManager) : M unit :=
  λ w, (Normal tt, set_deviceManager f w).

(** [new Date().toLocaleString()]. *)
Definition now : M date_string := λ w,
  (Normal (LocaleString (clock w (reads w)) None),
   {| deviceManager := deviceManager w; window := window w; broker := broker w;
      clock := clock w; reads := S (reads w) |}).

(** The identifier [mainWindow] as the handlers of [startMqttBroker] see it.
    It is declared with [const] inside [createWindow] only; the module has no
    binding of that name and nothing assigns a global of that name, so
    evaluating the identifier raises a ReferenceError. A value would be a
    window, or [null]/[undefined], written [None]. *)
Definition mainWindow : M (option unit) := λ w,
  (Throw (ReferenceError "mainWindow is not defined"), w).

(** [webContents.send(channel, payload)] on a window. *)
Definition deliver (channel : string) (payload : ipc_payload) : M unit := λ w,
  (Normal tt,
   {| deviceManager := deviceManager w;
      window := (window w ++ [{| channel := channel; payload := payload |}])%list;
      broker := broker w; clock := clock w; reads := reads w |}).

(** [mainWindow?.webContents.send(channel, payload)]: the identifier is
    evaluated first; the optional chain skips the call, arguments included,
    on [null] or [undefined]; otherwise the arguments are evaluated and the
    message is delivered. *)
Definition send (channel : string) (payload : M ipc_payload) : M unit :=
  target ← mainWindow;
  match target with
  | None => mret tt
  | Some _ => message ← payload; deliver channel message
  end.

(** [Aedes.publish(packet)]. *)
Definition Aedes_publish (p : publication) : M unit := λ w,
  (Normal tt,
   {| deviceManager := deviceManager w; window := window w;
      broker := (broker w ++ [p])%list; clock := clock w; reads := reads w |}).

(** ** DeviceManager *)

#[warnings="-abstract-large-number"] Definition LOG_LIMIT : nat := 10000.

(** [logs.push(entry)] followed by the bound check and [logs.shift()]. *)
Definition push_capped (logs : list LogEntry) (entry : LogEntry) : list LogEntry :=
  let logs := (logs ++ [entry])%list in
  if (LOG_LIMIT <? length logs)%nat then tail logs else logs.

Definition _addLog (content : string) (type : string) : M unit :=
  t ← now;
  modify (set_logs (λ logs, push_capped logs {| time := t; type := type; content := content |})).

Definition addDevice (mac : string) (deviceInfo : object) : M unit :=
  modify (set_devices
            (<[mac := <["alarm" := JArr []]> (<["healthData" := JObj []]> deviceInfo)]>));;
  _addLog ("设备上线：" +:+ mac) "info".

(** [{...device, ...data}]: every own property of [data], also one whose value
    is [undefined], replaces that of [device]. *)
Definition updateDeviceData (mac : string) (data : object) : M unit :=
  dm ← get_deviceManager;
  match devices dm !! mac with
  | None => mret tt
  | Some device =>
      modify (set_devices (<[mac := data ∪ device]>));;
      if ToBoolean (prop data "alarm") then
        names ← lift (join (prop data "alarm"));
        _addLog ("设备报警 [" +:+ mac +:+ "]：" +:+ names) "alarm"
      else mret tt
  end.

(** [this.devices.get(mac) || null]: a record is an object, hence truthy. *)
Definition getDevice (mac : string) : M (option object) :=
  dm ← get_deviceManager;
  mret (devices dm !! mac).

Definition clear : M unit :=
  modify (set_devices (λ _, ∅));;
  _addLog "设备列表已清空" "info".

(** [exportLogs]: the file is written by the host; [written] tells whether the
    awaited write completed, and only then is the export logged. *)
Definition exportLogs (filePath : string) (written : bool) : M unit :=
  if written then _addLog ("日志已导出：" +:+ filePath) "info" else mret tt.

(** ** The broker handlers of [startMqttBroker] *)

(** The object literal of the connect handler. *)
Definition connect_info (client_id : string) (connectTime : date_string) (pid : Z) : object :=
  list_to_map [("clientId", JStr client_id);
               ("status", JStr "online");
               ("connectTime", JTime connectTime);
               ("processId", JNum (Int pid))].

(** [Aedes.on('client', ...)]: the object literal, with its clock reading, is
    evaluated before [addDevice] runs; [getDevice] is an argument of the call
    on the window. *)
Definition on_client (client_id : string) (pid : Z) : M unit :=
  connectTime ← now;
  addDevice client_id (connect_info client_id connectTime pid);;
  send "device:online" (device ← getDevice client_id; mret (DeviceInfo device)).

(** [parsedResult?.healthData?.k], as a value of the update object. *)
Definition health_field {A} (parsedResult : option HealthDataFrame)
    (k : HealthData → A) (inj : A → jsval) : jsval :=
  match parsedResult with
  | Some frame =>
      match healthData frame with
      | Some h => inj (k h)
      | None => JUndefined
      end
  | None => JUndefined
  end.

(** The object literal passed to [updateDeviceData] in the HEALTH_DATA case:
    the five keys are always there. *)
Definition health_update (parsedResult : option HealthDataFrame) : object :=
  list_to_map
    [("heartRate", health_field parsedResult heartRate (λ n, JNum (Int n)));
     ("bloodOxygen", health_field parsedResult bloodOxygen (λ n, JNum (Int n)));
     ("wristTemp", health_field parsedResult wristTemp JNum);
     ("bodyTemp", health_field parsedResult bodyTemp JNum);
     ("wearStatus", health_field parsedResult wearStatus JStr)].

(** The object literal of the ALARM_DATA case. *)
Definition alarm_update (parsedResult : option AlarmDataFrame) (alarmTime : date_string)
    : object :=
  list_to_map
    [("alarm", match parsedResult with
               | Some frame => JArr (alarmType frame)
               | None => JUndefined
               end);
     ("alarmTime", JTime alarmTime)].

(** The [switch (frameType)] of the publish handler: it decodes the buffer and
    updates the device manager; its value is [parsedResult]. *)
Definition dispatch (clientId : string) (buffer : Buffer) (hexData : string)
    (frameType : option Z) : M (option parsed) :=
  if bool_decide (frameType = Some FRAME_TYPE.BOOT_VERSION) then
    parsedResult ← lift (parseBootVersionFrame buffer);
    mret (ParsedBoot <$> parsedResult)
  else if bool_decide (frameType = Some FRAME_TYPE.HEALTH_DATA) then
    parsedResult ← lift (parseHealthDataFrame buffer);
    updateDeviceData clientId (health_update parsedResult);;
    mret (ParsedHealth <$> parsedResult)
  else if bool_decide (frameType = Some FRAME_TYPE.ALARM_DATA) then
    parsedResult ← lift (parseAlarmDataFrame buffer);
    alarmTime ← now;
    updateDeviceData clientId (alarm_update parsedResult alarmTime);;
    mret (ParsedAlarm <$> parsedResult)
  else
    mret (Some (ParsedError "未知帧类型" hexData)).

(** [parsedResult && !parsedResult.error]: only the error object has a
    (non-empty) [error] property. *)
Definition decoded (parsedResult : option parsed) : bool :=
  match parsedResult with
  | Some (ParsedError _ _) | None => false
  | Some _ => true
  end.

(** The rest of the publish handler, after the [switch]: the window is told
    what was received, the clock being read for the message once the window
    has been reached, and a decoded frame is acknowledged on the device's
    topic. *)
Definition respond (clientId hexData : string) (frameType : option Z)
    (parsedResult : option parsed) : M unit :=
  send "data:received"
       (received ← now; mret (DataReceived clientId hexData parsedResult received));;
  if decoded parsedResult then
    match generateResponseFrame (strip_colons clientId) frameType with
    | Some responseFrame =>
        let responseHex := Buffer_toString_hex responseFrame in
        Aedes_publish {| topic := "/watch/response/" +:+ clientId;
                         pub_payload := Buffer_from_hex responseHex;
                         qos := 1;
                         retain := false |};;
        send "data:sent" (sent ← now; mret (DataSent clientId responseHex sent))
    | None => mret tt
    end
  else mret tt.

(** [Aedes.on('publish', ...)]: [client] and [packet.payload] may be missing;
    a payload is a buffer. *)
Definition on_publish (packet_payload : option Buffer) (client : option string) : M unit :=
  match client, packet_payload with
  | Some clientId, Some packet_payload =>
      let hexData := Buffer_toString_hex packet_payload in
      let buffer := Buffer_from_hex hexData in
      frameType ← lift (parseHeader buffer);
      parsedResult ← dispatch clientId buffer hexData frameType;
      respond clientId hexData frameType parsedResult
  | _, _ => mret tt
  end.

(** The object literal of the disconnect handler. *)
Definition disconnect_update (disconnectTime : date_string) : object :=
  list_to_map [("status", JStr "offline"); ("disconnectTime", JTime disconnectTime)].

(** [Aedes.on('clientDisconnect', ...)]. *)
Definition on_clientDisconnect (client : option string) : M unit :=
  match client with
  | None => mret tt
  | Some client_id =>
      disconnectTime ← now;
      updateDeviceData client_id (disconnect_update disconnectTime);;
      send "device:offline" (device ← getDevice client_id; mret (DeviceInfo device))
  end.

(** The first two steps of the publish handler on a buffer: the header is
    read, then the [switch] decodes. *)
Definition decode (clientId : string) (buffer : Buffer) : M (option parsed) :=
  frameType ← lift (parseHeader buffer);
  dispatch clientId buffer (Buffer_toString_hex buffer) frameType.

(** ** Vocabulary of the statements *)

Definition radix_error : exn := RangeError "toString() radix must be between 2 and 36".

Definition window_error : exn := ReferenceError "mainWindow is not defined".

(** A boot-version frame passes its length and tail check. *)
Definition valid_boot (buffer : Buffer) : Prop :=
  length buffer = 12%nat ∧ index buffer 11 = Some PACKET_TAIL.

(** A health or alarm frame passes its length and tail check. *)
Definition valid_tailed (buffer : Buffer) : Prop :=
  (13 <= length buffer)%nat ∧ index buffer (length buffer - 1) = Some PACKET_TAIL.

Definition known_frameType (frameType : option Z) : bool :=
  bool_decide (frameType = Some FRAME_TYPE.BOOT_VERSION)
  || bool_decide (frameType = Some FRAME_TYPE.HEALTH_DATA)
  || bool_decide (frameType = Some FRAME_TYPE.ALARM_DATA).

(** Structural failure of a buffer: no header, an unknown discriminant, or a
    known discriminant whose length or tail check fails. *)
Definition structural_failure (buffer : Buffer) : Prop :=
  ∃ frameType, parseHeader buffer = Normal frameType ∧
    (frameType = Some FRAME_TYPE.BOOT_VERSION → ¬ valid_boot buffer) ∧
    (frameType = Some FRAME_TYPE.HEALTH_DATA → ¬ valid_tailed buffer) ∧
    (frameType = Some FRAME_TYPE.ALARM_DATA → ¬ valid_tailed buffer).

(** A MAC without colons: twelve hexadecimal digits. *)
Definition hex_mac (mac : string) : Prop :=
  String.length mac = 12%nat ∧
  Forall (λ c, is_Some (hex_value c)) (list_ascii_of_string mac).

(** The value of the [i]-th pair of hexadecimal digits of [s]. *)
Definition hex_pair (s : string) (i : nat) : option Z :=
  hi ← String.get (2 * i) s;
  lo ← String.get (2 * i + 1) s;
  h ← hex_value hi;
  l ← hex_value lo;
  Some (16 * h + l).

(** Frames used as concrete inputs. *)
Definition boot_frame : Buffer :=
  [xaa; x44; x8e; x83; xc0; x22; xf6; x04; x31; x2e; x30; x0d].

Definition health_frame_short : Buffer :=
  [xaa; x55; x8e; x83; xc0; x22; xf6; x04; x50; x01; x00; x0d; x0d].

Definition health_frame_block : Buffer :=
  [xaa; x55; x8e; x83; xc0; x22; xf6; x04; x50; x01; x00; x28;
   xaa; x66; x10; x32; x54; x66; x00; x00; x00; x07; x48; x62; x01;
   x00; x00; x01; x6d; x00; x00; x01; x6e; x11; x22; x33; x44; x55; x66;
   x0d].

Definition alarm_frame (alarmByte : byte) : Buffer :=
  [xaa; x77; x8e; x83; xc0; x22; xf6; x04; x00; x0d; alarmByte; x00; x0d].

(** The five vitals keys of a device record. *)
Definition vitals : list string :=
  ["heartRate"; "bloodOxygen"; "wristTemp"; "bodyTemp"; "wearStatus"].

(** The log buffer is within its bound. *)
Definition log_bounded (w : World) : Prop :=
  (length (logs (deviceManager w)) <= LOG_LIMIT)%nat.

(** The calls a host can make: the methods of the device manager and the
    three broker events. *)
Inductive operation :=
| AddDevice (mac : string) (deviceInfo : object)
| UpdateDeviceData (mac : string) (data : object)
| GetDevice (mac : string)
| Clear
| ExportLogs (filePath : string) (written : bool)
| Client (client_id : string) (pid : Z)
| Publish (packet_payload : option Buffer) (client : option string)
| ClientDisconnect (client : option string).

Definition run_operation (op : operation) : M unit :=
  match op with
  | AddDevice mac deviceInfo => addDevice mac deviceInfo
  | UpdateDeviceData mac data => updateDeviceData mac data
  | GetDevice mac => getDevice mac;; mret tt
  | Clear => clear
  | ExportLogs filePath written => exportLogs filePath written
  | Client client_id pid => on_client client_id pid
  | Publish packet_payload client => on_publish packet_payload client
  | ClientDisconnect client => on_clientDisconnect client
  end.

(** The world after a sequence of calls; a call that raises leaves the world
    as it was when it raised, and the next call runs from there. *)
Definition run (ops : list operation) (w : World) : World :=
  foldl (λ w op, snd (run_operation op w)) w ops.

(** [_addLog] called once per item, in order. *)
Fixpoint addLogs (items : list (string * string)) : M unit :=
  match items with
  | [] => mret tt
  | (content, type) :: rest => _addLog content type;; addLogs rest
  end.

(** The entry that the [k]-th clock reading stamps on an item. *)
Definition entry_at (clock : nat → Z) (item : nat → string * string) (k : nat) : LogEntry :=
  {| time := LocaleString (clock k) None; type := snd (item k); content := fst (item k) |}.

(** An action keeps the log buffer within its bound, whether it returns or
    raises. *)
Definition keeps_bound {A} (m : M A) : Prop :=
  ∀ w, log_bounded w → log_bounded (snd (m w)).

(** Worlds used as concrete inputs: one device registered through
    [addDevice], then given a heart rate through [updateDeviceData]. *)
Definition world_one_device : World :=
  snd (addDevice "8e:83:c0:22:f6:04" ∅ (World_new (λ k, 1000 * Z.of_nat k))).

Definition world_with_vitals : World :=
  snd (updateDeviceData "8e:83:c0:22:f6:04" {["heartRate" := JNum (Int 72)]}
         world_one_device).

(** The record that [addDevice] stores for an empty description, and the
    record of [world_with_vitals]. *)
Definition blank_record : object :=
  <["alarm" := JArr []]> (<["healthData" := JObj []]> ∅).

Definition vitals_record : object := {["heartRate" := JNum (Int 72)]} ∪ blank_record.

(** The record of a device, [undefined] properties included. *)
Definition record (w : World) (mac : string) : option object :=
  devices (deviceManager w) !! mac.


(** ** Further vocabulary *)

(** A device id in the form the connect handler expects: the bytes of the MAC
    as two lowercase hexadecimal digits each, joined by colons. *)
Definition colon_mac (bs : Buffer) : string := String.concat ":" (hex_of_byte <$> bs).

(** The big-endian and the little-endian value of four bytes. *)
Definition be32 (b0 b1 b2 b3 : byte) : Z :=
  u8 b0 * 2 ^ 24 + u8 b1 * 2 ^ 16 + u8 b2 * 2 ^ 8 + u8 b3.

Definition le32 (b0 b1 b2 b3 : byte) : Z :=
  u8 b0 + u8 b1 * 2 ^ 8 + u8 b2 * 2 ^ 16 + u8 b3 * 2 ^ 24.

(** The entries that a run of [_addLog] calls from world [w] creates, one per
    item, each stamped with the next clock reading. *)
Definition stamped (w : World) (items : list (string * string)) : list LogEntry :=
  imap (λ k item, {| time := LocaleString (clock w (reads w + k)) None;
                     type := snd item; content := fst item |}) items.

(** An action relates every world to the world it leaves, whether it returns
    or raises. *)
Definition preserves {A} (R : relation World) (m : M A) : Prop :=
  ∀ w, R w (snd (m w)).

(** The broker has been sent nothing more. *)
Definition same_broker : relation World := λ w w', broker w' = broker w.

(** Every registered id is still registered. *)
Definition ids_kept : relation World :=
  λ w w', dom (devices (deviceManager w)) ⊆ dom (devices (deviceManager w')).

(** The three broker events, as opposed to direct calls of the manager. *)
Definition broker_event (op : operation) : Prop :=
  match op with
  | Client _ _ | Publish _ _ | ClientDisconnect _ => True
  | _ => False
  end.

Definition not_clear (op : operation) : Prop :=
  match op with
  | Clear => False
  | _ => True
  end.

(** A record whose [healthData] is still the empty object and whose vitals
    are each absent or [undefined]. *)
Definition pristine (r : object) : Prop :=
  r !! "healthData" = Some (JObj []) ∧
  ∀ k, k ∈ vitals → r !! k = None ∨ r !! k = Some JUndefined.

(** A record is online and was never disconnected, or is offline and
    carries the time of the disconnect. *)
Definition status_consistent (r : object) : Prop :=
  (r !! "status" = Some (JStr "online") ∧ r !! "disconnectTime" = None)
  ∨ (r !! "status" = Some (JStr "offline") ∧ ∃ t, r !! "disconnectTime" = Some (JTime t)).

(** Every record of the registry satisfies [P]. *)
Definition all_records (P : object → Prop) (w : World) : Prop :=
  ∀ mac r, record w mac = Some r → P r.

(** The update objects that the publish handler passes on for a frame that
    failed its check: the health update and the alarm update of no frame. *)
Inductive failed_update : object → Prop :=
| failed_health : failed_update (health_update None)
| failed_alarm (t : date_string) : failed_update (alarm_update None t).

(** The registry of [w'] is that of [w], or that of [w] with the update of a
    failed frame merged into the record of [clientId]. *)
Definition registry_step (clientId : string) (w w' : World) : Prop :=
  devices (deviceManager w') = devices (deviceManager w)
  ∨ ∃ device upd, failed_update upd ∧
      devices (deviceManager w) !! clientId = Some device ∧
      devices (deviceManager w')
      = <[clientId := upd ∪ device]> (devices (deviceManager w)).

(** The record that the connect handler stores. *)
Definition connect_record (client_id : string) (connectTime : date_string) (pid : Z) : object :=
  <["alarm" := JArr []]> (<["healthData" := JObj []]> (connect_info client_id connectTime pid)).

(** A record used as a concrete input: connected, hit by a failed health
    frame, then disconnected. *)
Definition record_after_events : object :=
  disconnect_update (LocaleString 2000 None)
  ∪ (health_update None ∪ connect_record "8e:83:c0:22:f6:04" (LocaleString 0 None) 7).

(** * Properties *)

(** ** Codecs *)

Lemma u8_range (b : byte) : 0 <= u8 b < 256.
Proof. unfold u8. pose proof (Byte.to_N_bounded b). lia. Qed.

Lemma u8_byte_of_Z (z : Z) : 0 <= z < 256 → u8 (byte_of_Z z) = z.
Proof.
  intros Hz. unfold u8, byte_of_Z.
  destruct (Byte.of_N (Z.to_N z)) as [b|] eqn:E.
  - apply Byte.to_of_N in E. rewrite E. lia.
  - apply Byte.of_N_None_iff in E. lia.
Qed.

Lemma byte_of_Z_u8 (b : byte) : byte_of_Z (u8 b) = b.
Proof.
  unfold byte_of_Z, u8. rewrite N2Z.id. by rewrite Byte.of_to_N.
Qed.

Lemma hex_value_range (c : ascii) (v : Z) : hex_value c = Some v → 0 <= v < 16.
Proof.
  unfold hex_value. intros H.
  repeat case_match; simplify_eq; lia.
Qed.

Lemma hex_value_digit_char (d : Z) : 0 <= d < 16 → hex_value (digit_char d) = Some d.
Proof.
  intros Hd.
  assert (Hcases : d = 0 ∨ d = 1 ∨ d = 2 ∨ d = 3 ∨ d = 4 ∨ d = 5 ∨ d = 6 ∨ d = 7
                   ∨ d = 8 ∨ d = 9 ∨ d = 10 ∨ d = 11 ∨ d = 12 ∨ d = 13 ∨ d = 14 ∨ d = 15)
    by lia.
  repeat (destruct Hcases as [-> | Hcases]; [reflexivity |]). by subst.
Qed.

Lemma append_String (c : ascii) (s t : string) : String c s +:+ t = String c (s +:+ t).
Proof. reflexivity. Qed.

Lemma append_empty_l (t : string) : "" +:+ t = t.
Proof. reflexivity. Qed.

(** Decoding the hexadecimal rendering of a buffer gives the buffer back, so
    the [buffer] of the publish handler is the payload. *)
Lemma Buffer_from_hex_toString (buf : Buffer) :
  Buffer_from_hex (Buffer_toString_hex buf) = buf.
Proof.
  induction buf as [|b buf IH]; [done |].
  pose proof (u8_range b) as Hb.
  cbn [Buffer_toString_hex foldr]. fold (Buffer_toString_hex buf).
  unfold hex_of_byte. rewrite !append_String, append_empty_l. cbn [Buffer_from_hex].
  rewrite !hex_value_digit_char by (Z.div_mod_to_equations; lia).
  rewrite IH. f_equal.
  rewrite <- (byte_of_Z_u8 b) at 3. f_equal.
  symmetry. by apply Z.div_mod.
Qed.

(** ** The decoder *)

Lemma parseHeader_returns (buffer : Buffer) : returns (parseHeader buffer).
Proof.
  unfold parseHeader, returns.
  destruct buffer as [|b0 [|b1 rest]]; cbn; eauto.
Qed.

Lemma parseHeader_short (buffer : Buffer) :
  (length buffer < 2)%nat → parseHeader buffer = Normal None.
Proof.
  intros H. unfold parseHeader.
  destruct buffer as [|b0 [|b1 rest]]; cbn in *; [done | done | lia].
Qed.

Lemma parseHeader_cons (b0 b1 : byte) (rest : Buffer) :
  parseHeader (b0 :: b1 :: rest) = Normal (Some (u8 b0 * 256 + u8 b1)).
Proof. reflexivity. Qed.

(** The radix argument 'hex' is not a number: the call raises for every
    receiver. *)
Lemma Number_toString_hex (n : Z) : Number_toString n (RadixStr "hex") = Throw radix_error.
Proof. reflexivity. Qed.

Lemma _parseMAC_nonempty (b : byte) (bs : Buffer) : _parseMAC (b :: bs) = Throw radix_error.
Proof. reflexivity. Qed.

Lemma _parseMAC_empty : _parseMAC [] = Normal "".
Proof. reflexivity. Qed.

(** A frame long enough to hold a MAC makes [_parseMAC] raise. *)
Lemma _parseMAC_slice (buffer : Buffer) :
  (3 <= length buffer)%nat → _parseMAC (slice 2 8 buffer) = Throw radix_error.
Proof.
  intros H. destruct buffer as [|b0 [|b1 [|b2 rest]]]; cbn in H; try lia.
  reflexivity.
Qed.

Lemma is_not_tail_false (x : option Z) : x = Some PACKET_TAIL → is_not_tail x = false.
Proof. by intros ->. Qed.

Lemma parseBootVersionFrame_valid (buffer : Buffer) :
  valid_boot buffer → parseBootVersionFrame buffer = Throw radix_error.
Proof.
  intros [Hlen Htail]. unfold parseBootVersionFrame.
  rewrite Hlen, (is_not_tail_false _ Htail). cbn [Nat.eqb negb orb].
  rewrite _parseMAC_slice by lia. reflexivity.
Qed.

Lemma parseHealthDataFrame_valid (buffer : Buffer) :
  valid_tailed buffer → parseHealthDataFrame buffer = Throw radix_error.
Proof.
  intros [Hlen Htail]. unfold parseHealthDataFrame.
  rewrite (is_not_tail_false _ Htail).
  destruct (Nat.ltb_spec (length buffer) 13) as [|_]; [lia |]. cbn [orb].
  rewrite _parseMAC_slice by lia. reflexivity.
Qed.

Lemma parseAlarmDataFrame_valid (buffer : Buffer) :
  valid_tailed buffer → parseAlarmDataFrame buffer = Throw radix_error.
Proof.
  intros [Hlen Htail]. unfold parseAlarmDataFrame.
  rewrite (is_not_tail_false _ Htail).
  destruct (Nat.ltb_spec (length buffer) 13) as [|_]; [lia |]. cbn [orb].
  rewrite _parseMAC_slice by lia. reflexivity.
Qed.

Lemma parseBootVersionFrame_invalid (buffer : Buffer) :
  ¬ valid_boot buffer → parseBootVersionFrame buffer = Normal None.
Proof.
  intros Hn. unfold parseBootVersionFrame.
  destruct (Nat.eqb_spec (length buffer) 12) as [Hlen|]; [|done]. cbn [negb orb].
  destruct (index buffer 11) as [v|] eqn:E; [|done]. cbn.
  destruct (Z.eqb_spec v PACKET_TAIL) as [->|]; [|done].
  exfalso. apply Hn. by split.
Qed.

Lemma parseHealthDataFrame_invalid (buffer : Buffer) :
  ¬ valid_tailed buffer → parseHealthDataFrame buffer = Normal None.
Proof.
  intros Hn. unfold parseHealthDataFrame.
  destruct (Nat.ltb_spec (length buffer) 13) as [|Hlen]; [done |]. cbn [orb].
  destruct (index buffer (length buffer - 1)) as [v|] eqn:E; [|done]. cbn.
  destruct (Z.eqb_spec v PACKET_TAIL) as [->|]; [|done].
  exfalso. apply Hn. by split.
Qed.

Lemma parseAlarmDataFrame_invalid (buffer : Buffer) :
  ¬ valid_tailed buffer → parseAlarmDataFrame buffer = Normal None.
Proof.
  intros Hn. unfold parseAlarmDataFrame.
  destruct (Nat.ltb_spec (length buffer) 13) as [|Hlen]; [done |]. cbn [orb].
  destruct (index buffer (length buffer - 1)) as [v|] eqn:E; [|done]. cbn.
  destruct (Z.eqb_spec v PACKET_TAIL) as [->|]; [|done].
  exfalso. apply Hn. by split.
Qed.

(** ** The monad *)

Lemma bind_run {A B} (m : M A) (f : A → M B) (w : World) :
  (m ≫= f) w = match m w with
               | (Normal a, w') => f a w'
               | (Throw e, w') => (Throw e, w')
               end.
Proof. reflexivity. Qed.

Lemma lift_run {A} (c : completion A) (w : World) : lift c w = (c, w).
Proof. reflexivity. Qed.

Lemma ret_run {A} (a : A) (w : World) : (mret a : M A) w = (Normal a, w).
Proof. reflexivity. Qed.

(** Reaching for the window raises, before the arguments of the call are
    evaluated and with the world as it is. *)
Lemma send_run (channel : string) (payload : M ipc_payload) (w : World) :
  send channel payload w = (Throw window_error, w).
Proof. reflexivity. Qed.

Lemma respond_run (clientId hexData : string) (frameType : option Z)
    (parsedResult : option parsed) (w : World) :
  respond clientId hexData frameType parsedResult w = (Throw window_error, w).
Proof. reflexivity. Qed.

(** The world that the publish handler leaves is the one its [switch]
    leaves. *)
Lemma on_publish_state (clientId : string) (packet_payload : Buffer)
    (frameType : option Z) (w : World) :
  parseHeader packet_payload = Normal frameType →
  snd (on_publish (Some packet_payload) (Some clientId) w)
  = snd (dispatch clientId packet_payload (Buffer_toString_hex packet_payload) frameType w).
Proof.
  intros Hh. unfold on_publish. rewrite Buffer_from_hex_toString.
  rewrite bind_run, lift_run, Hh, bind_run.
  destruct (dispatch clientId packet_payload (Buffer_toString_hex packet_payload)
              frameType w) as [[parsedResult|e] w1]; [|done].
  by rewrite respond_run.
Qed.

(** ** The response builder: C7 *)

Lemma Buffer_from_hex_12 (mac : string) :
  hex_mac mac →
  length (Buffer_from_hex mac) = 6%nat ∧
  ∀ i, (i < 6)%nat → index (Buffer_from_hex mac) i = hex_pair mac i ∧ is_Some (hex_pair mac i).
Proof.
  intros [Hlen Hhex].
  do 12 (destruct mac as [|? mac]; [discriminate Hlen |]).
  destruct mac; [| discriminate Hlen].
  cbn [list_ascii_of_string] in Hhex.
  repeat match goal with
         | H : Forall _ (_ :: _) |- _ =>
             apply Forall_cons in H; destruct H as [[? ?] H]
         end.
  cbn [Buffer_from_hex].
  repeat match goal with H : hex_value _ = Some _ |- _ =>
    rewrite H; pose proof (hex_value_range _ _ H); revert H end.
  intros. split; [reflexivity |].
  intros i Hi.
  assert (Hc : (i = 0 ∨ i = 1 ∨ i = 2 ∨ i = 3 ∨ i = 4 ∨ i = 5)%nat) by lia.
  unfold index, hex_pair.
  repeat (destruct Hc as [-> | Hc]; [
    cbn [String.get Nat.mul Nat.add lookup list_lookup fmap option_fmap option_map mbind option_bind];
    repeat match goal with H : hex_value _ = Some _ |- _ => rewrite H; clear H end;
    cbn; rewrite u8_byte_of_Z by lia; eauto |]).
  subst i.
  cbn [String.get Nat.mul Nat.add lookup list_lookup fmap option_fmap option_map mbind option_bind];
    repeat match goal with H : hex_value _ = Some _ |- _ => rewrite H; clear H end;
    cbn; rewrite u8_byte_of_Z by lia; eauto.
Qed.

(** C7. For a MAC of twelve hexadecimal digits, [generateResponseFrame]
    answers a boot-version frame with the 11 bytes AA 44, the six MAC bytes,
    00 00 0D; a health frame and an alarm frame with the 10 bytes of their
    header, the six MAC bytes, 01 and 0D; and any other frame type with
    nothing. The six MAC bytes are the values of the six digit pairs. *)
Theorem generateResponseFrame_frames (mac : string) :
  hex_mac mac →
  ∃ b0 b1 b2 b3 b4 b5 : byte,
    Buffer_from_hex mac = [b0; b1; b2; b3; b4; b5] ∧
    (∀ i, (i < 6)%nat → index [b0; b1; b2; b3; b4; b5] i = hex_pair mac i) ∧
    generateResponseFrame mac (Some FRAME_TYPE.BOOT_VERSION)
      = Some [xaa; x44; b0; b1; b2; b3; b4; b5; x00; x00; x0d] ∧
    generateResponseFrame mac (Some FRAME_TYPE.HEALTH_DATA)
      = Some [xaa; x55; b0; b1; b2; b3; b4; b5; x01; x0d] ∧
    generateResponseFrame mac (Some FRAME_TYPE.ALARM_DATA)
      = Some [xaa; x77; b0; b1; b2; b3; b4; b5; x01; x0d] ∧
    ∀ frameType, known_frameType frameType = false →
                 generateResponseFrame mac frameType = None.
Proof.
  intros Hmac. destruct (Buffer_from_hex_12 mac Hmac) as [Hlen Hidx].
  destruct (Buffer_from_hex mac) as [|b0 [|b1 [|b2 [|b3 [|b4 [|b5 [|? ?]]]]]]] eqn:E;
    try discriminate Hlen.
  exists b0, b1, b2, b3, b4, b5. split; [done |].
  split; [intros i Hi; by apply Hidx |].
  unfold generateResponseFrame. rewrite E.
  repeat split; try reflexivity.
  intros [t|] Hk; [|done].
  unfold known_frameType in Hk.
  apply orb_false_elim in Hk as [Hk Ha]. apply orb_false_elim in Hk as [Hb Hh].
  apply bool_decide_eq_false in Hb, Hh, Ha.
  destruct (Z.eqb_spec t FRAME_TYPE.BOOT_VERSION); [congruence |].
  destruct (Z.eqb_spec t FRAME_TYPE.HEALTH_DATA); [congruence |].
  destruct (Z.eqb_spec t FRAME_TYPE.ALARM_DATA); [congruence |].
  done.
Qed.

Lemma hex_mac_example : hex_mac "8e83c022f604".
Proof.
  split; [reflexivity |].
  repeat (apply Forall_cons; split; [by eexists |]). apply Forall_nil_2.
Defined.

Lemma generateResponseFrame_frames_witness :
  ∃ b0 b1 b2 b3 b4 b5 : byte,
    Buffer_from_hex "8e83c022f604" = [b0; b1; b2; b3; b4; b5] ∧
    (∀ i, (i < 6)%nat → index [b0; b1; b2; b3; b4; b5] i = hex_pair "8e83c022f604" i) ∧
    generateResponseFrame "8e83c022f604" (Some FRAME_TYPE.BOOT_VERSION)
      = Some [xaa; x44; b0; b1; b2; b3; b4; b5; x00; x00; x0d] ∧
    generateResponseFrame "8e83c022f604" (Some FRAME_TYPE.HEALTH_DATA)
      = Some [xaa; x55; b0; b1; b2; b3; b4; b5; x01; x0d] ∧
    generateResponseFrame "8e83c022f604" (Some FRAME_TYPE.ALARM_DATA)
      = Some [xaa; x77; b0; b1; b2; b3; b4; b5; x01; x0d] ∧
    ∀ frameType, known_frameType frameType = false →
                 generateResponseFrame "8e83c022f604" frameType = None.
Proof. apply (generateResponseFrame_frames "8e83c022f604"). apply hex_mac_example. Defined.

(** ** The device manager *)

Lemma _addLog_run (content type : string) (w : World) :
  _addLog content type w =
  (Normal tt,
   {| deviceManager :=
        {| devices := devices (deviceManager w);
           logs := push_capped (logs (deviceManager w))
                     {| time := LocaleString (clock w (reads w)) None;
                        type := type; content := content |} |};
      window := window w; broker := broker w; clock := clock w;
      reads := S (reads w) |}).
Proof. reflexivity. Qed.

Lemma updateDeviceData_run (mac : string) (data : object) (w : World) :
  updateDeviceData mac data w =
  match devices (deviceManager w) !! mac with
  | None => (Normal tt, w)
  | Some device =>
      let w1 := set_deviceManager (set_devices (<[mac := data ∪ device]>)) w in
      if ToBoolean (prop data "alarm") then
        match join (prop data "alarm") with
        | Normal names => _addLog ("设备报警 [" +:+ mac +:+ "]：" +:+ names) "alarm" w1
        | Throw e => (Throw e, w1)
        end
      else (Normal tt, w1)
  end.
Proof.
  unfold updateDeviceData. rewrite bind_run. cbn [get_deviceManager].
  destruct (devices (deviceManager w) !! mac) as [device|]; [|reflexivity].
  rewrite bind_run. cbn [modify].
  destruct (ToBoolean (prop data "alarm")); [|reflexivity].
  rewrite bind_run, lift_run. by destruct (join (prop data "alarm")).
Qed.

(** An update whose [alarm] is falsy returns, and touches neither the logs,
    nor the clock, nor the window, nor the broker. *)
Lemma updateDeviceData_quiet (mac : string) (data : object) (w : World) :
  ToBoolean (prop data "alarm") = false →
  ∃ devices', updateDeviceData mac data w =
    (Normal tt, set_deviceManager (set_devices (λ _, devices')) w).
Proof.
  intros Hq. rewrite updateDeviceData_run, Hq.
  destruct (devices (deviceManager w) !! mac) as [device|]; cbn zeta.
  - by eexists.
  - exists (devices (deviceManager w)). by destruct w as [[? ?] ? ? ? ?].
Qed.

(** ** The decode step on malformed input: C1 *)

Lemma health_update_alarm (r : option HealthDataFrame) :
  ToBoolean (prop (health_update r) "alarm") = false.
Proof. reflexivity. Qed.

Lemma alarm_update_None (t : date_string) :
  ToBoolean (prop (alarm_update None t) "alarm") = false.
Proof. reflexivity. Qed.

Lemma decode_run (clientId : string) (buffer : Buffer) (frameType : option Z) (w : World) :
  parseHeader buffer = Normal frameType →
  decode clientId buffer w = dispatch clientId buffer (Buffer_toString_hex buffer) frameType w.
Proof. intros H. unfold decode. by rewrite bind_run, lift_run, H. Qed.

(** On a structural failure the [switch] returns: nothing for a known
    discriminant, the error object otherwise. The broker is not touched. *)
Lemma dispatch_failure (clientId : string) (buffer : Buffer) (hexData : string)
    (frameType : option Z) (w : World) :
  (frameType = Some FRAME_TYPE.BOOT_VERSION → ¬ valid_boot buffer) →
  (frameType = Some FRAME_TYPE.HEALTH_DATA → ¬ valid_tailed buffer) →
  (frameType = Some FRAME_TYPE.ALARM_DATA → ¬ valid_tailed buffer) →
  ∃ w', dispatch clientId buffer hexData frameType w =
          (Normal (if known_frameType frameType then None
                   else Some (ParsedError "未知帧类型" hexData)), w')
        ∧ broker w' = broker w.
Proof.
  intros Hb Hh Ha. unfold dispatch, known_frameType.
  case_bool_decide as Eb.
  { rewrite bind_run, lift_run, parseBootVersionFrame_invalid by auto. by eexists. }
  case_bool_decide as Eh.
  { rewrite bind_run, lift_run, parseHealthDataFrame_invalid by auto.
    destruct (updateDeviceData_quiet clientId (health_update None) w
                (health_update_alarm None)) as [d Hd].
    rewrite bind_run, Hd. by eexists. }
  case_bool_decide as Ea.
  { rewrite bind_run, lift_run, parseAlarmDataFrame_invalid by auto.
    rewrite bind_run. cbn [now]. rewrite bind_run.
    match goal with |- context [updateDeviceData ?m ?d ?w1] =>
      destruct (updateDeviceData_quiet m d w1 (alarm_update_None _)) as [d' Hd]
    end.
    rewrite Hd. by eexists. }
  by eexists.
Qed.

(** C1, amended. On a structural failure the decode step returns without
    raising. An unknown discriminant, or a buffer too short for a header,
    yields the error object with the reason and the raw hex; a known
    discriminant whose length or tail check fails yields no result ([null]);
    in both cases the publish handler publishes nothing to the broker. *)
Theorem decode_structural_failure (clientId : string) (buffer : Buffer) (w : World) :
  structural_failure buffer →
  ∃ frameType, parseHeader buffer = Normal frameType ∧
    fst (decode clientId buffer w)
      = Normal (if known_frameType frameType then None
                else Some (ParsedError "未知帧类型" (Buffer_toString_hex buffer))) ∧
    broker (snd (on_publish (Some buffer) (Some clientId) w)) = broker w.
Proof.
  intros (frameType & Hh & Hb & Hhe & Ha). exists frameType. split; [done |].
  destruct (dispatch_failure clientId buffer (Buffer_toString_hex buffer) frameType w
              Hb Hhe Ha) as (w' & Hd & Hbr).
  split; [by rewrite (decode_run _ _ _ _ Hh), Hd |].
  by rewrite (on_publish_state _ _ _ _ Hh), Hd.
Qed.

Lemma structural_failure_short : structural_failure [xaa].
Proof. exists None. by repeat split. Defined.

Lemma decode_structural_failure_witness :
  ∃ frameType, parseHeader [xaa] = Normal frameType ∧
    fst (decode "8e:83:c0:22:f6:04" [xaa] (World_new (λ _, 0)))
      = Normal (if known_frameType frameType then None
                else Some (ParsedError "未知帧类型" (Buffer_toString_hex [xaa]))) ∧
    broker (snd (on_publish (Some [xaa]) (Some "8e:83:c0:22:f6:04") (World_new (λ _, 0))))
      = broker (World_new (λ _, 0)).
Proof.
  apply (decode_structural_failure "8e:83:c0:22:f6:04" [xaa] (World_new (λ _, 0))).
  apply structural_failure_short.
Defined.

(** C1 as stated fails: the two bytes AA 44 are a structural failure (a
    boot-version header on a buffer that is not 12 bytes long), and the decode
    step yields no result at all, not an error object with a reason. *)
Lemma decode_failure_absent_result :
  structural_failure [xaa; x44] ∧
  ¬ ∃ reason rawHex,
      fst (decode "8e:83:c0:22:f6:04" [xaa; x44] (World_new (λ _, 0)))
        = Normal (Some (ParsedError reason rawHex)).
Proof.
  split.
  - exists (Some FRAME_TYPE.BOOT_VERSION). split; [reflexivity |].
    repeat split; try discriminate. intros _ [Hlen _]. discriminate Hlen.
  - intros (reason & rawHex & H). vm_compute in H. discriminate H.
Qed.

(** ** Valid frames: C2, C4, C8 *)


(** With the radix 16 in place of 'hex', the callback of [_parseMAC] would
    give the two lowercase digits of the byte. *)
Lemma Number_toString_16 (b : byte) :
  padStart0 2 <$> Number_toString (u8 b) (RadixNum 16) = Normal (hex_of_byte b).
Proof. destruct b; reflexivity. Qed.

Lemma _parseTimestamp_little_endian (b0 b1 b2 b3 : byte) :
  _parseTimestamp [b0; b1; b2; b3]
  = Normal (LocaleString ((u8 b0 + u8 b1 * 2 ^ 8 + u8 b2 * 2 ^ 16 + u8 b3 * 2 ^ 24) * 1000)
                         (Some "zh-CN")).
Proof. reflexivity. Qed.

Lemma _parseAlarmType_values :
  _parseAlarmType 0x03 = ["低电量报警"; "SOS报警"] ∧
  _parseAlarmType 0x01 = ["低电量报警"] ∧
  _parseAlarmType 0x02 = ["SOS报警"] ∧
  _parseAlarmType 0x00 = ["未知报警"].
Proof. by repeat split. Qed.

(** C2: the code raises where the claim promises a record. The 12-byte
    boot-version frame AA 44, MAC 8e:83:c0:22:f6:04, "1.0", 0D passes the
    length and tail check, and [parseBootVersionFrame] then raises the
    RangeError of [Number.prototype.toString] called with the radix 'hex';
    the decode step and the publish handler raise with it. *)
Theorem boot_frame_decode_raises :
  valid_boot boot_frame ∧
  parseHeader boot_frame = Normal (Some FRAME_TYPE.BOOT_VERSION) ∧
  parseBootVersionFrame boot_frame = Throw radix_error ∧
  ∀ w, decode "8e:83:c0:22:f6:04" boot_frame w = (Throw radix_error, w) ∧
       on_publish (Some boot_frame) (Some "8e:83:c0:22:f6:04") w = (Throw radix_error, w).
Proof.
  repeat split; reflexivity.
Qed.

(** C4: the code raises where the claim promises a record. A health frame
    with a 27-byte block and a health frame with an empty block both pass the
    length and tail check, and [parseHealthDataFrame] raises the RangeError of
    [_parseMAC] on each before any field of the block is read. *)
Theorem health_frame_decode_raises :
  valid_tailed health_frame_block ∧
  (24 <= length (slice 12 (length health_frame_block - 1) health_frame_block))%nat ∧
  parseHealthDataFrame health_frame_block = Throw radix_error ∧
  valid_tailed health_frame_short ∧
  (length (slice 12 (length health_frame_short - 1) health_frame_short) < 24)%nat ∧
  parseHealthDataFrame health_frame_short = Throw radix_error ∧
  ∀ w, decode "8e:83:c0:22:f6:04" health_frame_block w = (Throw radix_error, w) ∧
       decode "8e:83:c0:22:f6:04" health_frame_short w = (Throw radix_error, w).
Proof.
  repeat split; try reflexivity; cbn; lia.
Qed.

(** C8: the code raises where the claim promises a decoded alarm type. The
    bit decoding itself gives [LowBattery, SOS] for 0x03 and [Unknown] for
    0x00, but for a valid alarm frame carrying either byte
    [parseAlarmDataFrame] raises the RangeError of [_parseMAC] before the
    alarm byte is read. *)
Theorem alarm_frame_decode_raises :
  _parseAlarmType 0x03 = ["低电量报警"; "SOS报警"] ∧
  _parseAlarmType 0x00 = ["未知报警"] ∧
  valid_tailed (alarm_frame x03) ∧ index (alarm_frame x03) 10 = Some 0x03 ∧
  parseAlarmDataFrame (alarm_frame x03) = Throw radix_error ∧
  valid_tailed (alarm_frame x00) ∧ index (alarm_frame x00) 10 = Some 0x00 ∧
  parseAlarmDataFrame (alarm_frame x00) = Throw radix_error ∧
  ∀ w, decode "8e:83:c0:22:f6:04" (alarm_frame x03) w = (Throw radix_error, w) ∧
       decode "8e:83:c0:22:f6:04" (alarm_frame x00) w = (Throw radix_error, w).
Proof.
  repeat split; try reflexivity; cbn; lia.
Qed.

(** ** The log buffer: C5 *)

Lemma push_capped_bounded (logs : list LogEntry) (entry : LogEntry) :
  (length logs <= LOG_LIMIT)%nat → (length (push_capped logs entry) <= LOG_LIMIT)%nat.
Proof.
  intros H. unfold push_capped.
  destruct (Nat.ltb_spec LOG_LIMIT (length (logs ++ [entry]))) as [Hgt|Hle]; [|done].
  rewrite length_app in Hgt. cbn [length] in Hgt.
  destruct logs as [|x logs]; cbn [length app tail] in *; [lia |].
  rewrite length_app. cbn [length]. lia.
Qed.

(** What a run of pushes leaves: the last [LOG_LIMIT] entries, oldest first. *)
Lemma foldl_push_capped (logs entries : list LogEntry) :
  (length logs <= LOG_LIMIT)%nat →
  foldl push_capped logs entries
  = drop (length (logs ++ entries) - LOG_LIMIT) (logs ++ entries).
Proof.
  revert logs. induction entries as [|e entries IH]; intros logs Hlen.
  - rewrite app_nil_r. cbn [foldl].
    replace (length logs - LOG_LIMIT)%nat with 0%nat by lia. done.
  - cbn [foldl]. rewrite IH by by apply push_capped_bounded.
    unfold push_capped.
    destruct (Nat.ltb_spec LOG_LIMIT (length (logs ++ [e]))) as [Hgt|Hle].
    + rewrite length_app in Hgt. cbn [length] in Hgt.
      destruct logs as [|x logs].
      * cbn [length app tail] in *. assert (LOG_LIMIT = 0)%nat as -> by lia.
        by rewrite !Nat.sub_0_r.
      * cbn [tail app]. rewrite <- (app_assoc logs [e] entries). cbn [app].
        cbn [length] in *. rewrite !length_app in *. cbn [length] in *.
        replace (S (length logs + S (length entries)) - LOG_LIMIT)%nat
          with (S (length logs + S (length entries) - LOG_LIMIT)) by lia.
        done.
    + by rewrite <- (app_assoc logs [e] entries).
Qed.

Lemma addLogs_run (items : list (string * string)) (w : World) :
  addLogs items w =
  (Normal tt,
   {| deviceManager :=
        {| devices := devices (deviceManager w);
           logs := foldl push_capped (logs (deviceManager w))
                     (imap (λ k item, {| time := LocaleString (clock w (reads w + k)) None;
                                         type := snd item; content := fst item |}) items) |};
      window := window w; broker := broker w; clock := clock w;
      reads := (reads w + length items)%nat |}).
Proof.
  revert w. induction items as [|[content type] items IH]; intros w.
  - cbn. rewrite Nat.add_0_r. by destruct w as [[? ?] ? ? ? ?].
  - cbn [addLogs]. rewrite bind_run, _addLog_run, IH.
    cbn [deviceManager window broker clock reads devices logs imap foldl length fst snd].
    rewrite Nat.add_0_r.
    replace (S (reads w) + length items)%nat with (reads w + S (length items))%nat by lia.
    do 4 f_equal. apply imap_ext. intros k item _. cbn. do 3 f_equal. lia.
Qed.

Lemma imap_entry_at (clock : nat → Z) (item : nat → string * string) (n : nat) :
  imap (λ k it, {| time := LocaleString (clock (0 + k)%nat) None;
                   type := snd it; content := fst it |}) (item <$> seq 0 n)
  = entry_at clock item <$> seq 0 n.
Proof.
  apply list_eq. intros i.
  rewrite list_lookup_imap, !list_lookup_fmap.
  destruct (seq 0 n !! i) as [k|] eqn:E; [|done].
  apply lookup_seq in E as [-> _]. done.
Qed.

Create HintDb bound discriminated.

Lemma keeps_bound_ret {A} (a : A) : keeps_bound (mret a : M A).
Proof. by intros w. Qed.

Lemma keeps_bound_lift {A} (c : completion A) : keeps_bound (lift c).
Proof. by intros w. Qed.

Lemma keeps_bound_bind {A B} (m : M A) (f : A → M B) :
  keeps_bound m → (∀ a, keeps_bound (f a)) → keeps_bound (m ≫= f).
Proof.
  intros Hm Hf w Hw. rewrite bind_run. specialize (Hm w Hw).
  destruct (m w) as [[a|e] w']; [by apply Hf | done].
Qed.

Lemma keeps_bound_now : keeps_bound now.
Proof. by intros w. Qed.

Lemma keeps_bound_mainWindow : keeps_bound mainWindow.
Proof. by intros w. Qed.

Lemma keeps_bound_deliver (channel : string) (payload : ipc_payload) :
  keeps_bound (deliver channel payload).
Proof. by intros w. Qed.

Lemma keeps_bound_send (channel : string) (payload : M ipc_payload) :
  keeps_bound payload → keeps_bound (send channel payload).
Proof.
  intros Hp. unfold send. apply keeps_bound_bind; [apply keeps_bound_mainWindow |].
  intros [target|]; [| by intros w].
  apply keeps_bound_bind; [done | intros message; apply keeps_bound_deliver].
Qed.

Lemma keeps_bound_publish (p : publication) : keeps_bound (Aedes_publish p).
Proof. by intros w. Qed.

Lemma keeps_bound_get : keeps_bound get_deviceManager.
Proof. by intros w. Qed.

Lemma keeps_bound_set_devices (f : gmap string object → gmap string object) :
  keeps_bound (modify (set_devices f)).
Proof. by intros w. Qed.

Lemma keeps_bound__addLog (content type : string) : keeps_bound (_addLog content type).
Proof.
  intros w Hw. rewrite _addLog_run. unfold log_bounded in *.
  cbn [snd deviceManager logs set_logs]. by apply push_capped_bounded.
Qed.

#[local] Hint Resolve keeps_bound_ret keeps_bound_lift keeps_bound_now keeps_bound_send
  keeps_bound_publish keeps_bound_get keeps_bound_set_devices keeps_bound__addLog : bound.

Ltac bound :=
  repeat first
    [ progress eauto with bound
    | apply keeps_bound_send
    | apply keeps_bound_bind; [| intros ?]
    | match goal with
      | |- keeps_bound (if ?b then _ else _) => destruct b
      | |- keeps_bound (match ?x with _ => _ end) => destruct x
      end ].

Lemma keeps_bound_addDevice (mac : string) (deviceInfo : object) :
  keeps_bound (addDevice mac deviceInfo).
Proof. unfold addDevice. bound. Qed.

Lemma keeps_bound_updateDeviceData (mac : string) (data : object) :
  keeps_bound (updateDeviceData mac data).
Proof. unfold updateDeviceData. bound. Qed.

Lemma keeps_bound_getDevice (mac : string) : keeps_bound (getDevice mac).
Proof. unfold getDevice. bound. Qed.

Lemma keeps_bound_clear : keeps_bound clear.
Proof. unfold clear. bound. Qed.

Lemma keeps_bound_exportLogs (filePath : string) (written : bool) :
  keeps_bound (exportLogs filePath written).
Proof. unfold exportLogs. bound. Qed.

#[local] Hint Resolve keeps_bound_addDevice keeps_bound_updateDeviceData
  keeps_bound_getDevice keeps_bound_clear keeps_bound_exportLogs : bound.

Lemma keeps_bound_on_client (client_id : string) (pid : Z) :
  keeps_bound (on_client client_id pid).
Proof. unfold on_client. bound. Qed.

Lemma keeps_bound_dispatch (clientId : string) (buffer : Buffer) (hexData : string)
    (frameType : option Z) :
  keeps_bound (dispatch clientId buffer hexData frameType).
Proof. unfold dispatch. bound. Qed.

Lemma keeps_bound_respond (clientId hexData : string) (frameType : option Z)
    (parsedResult : option parsed) :
  keeps_bound (respond clientId hexData frameType parsedResult).
Proof. unfold respond. bound. Qed.

#[local] Hint Resolve keeps_bound_dispatch keeps_bound_respond : bound.

Lemma keeps_bound_on_publish (packet_payload : option Buffer) (client : option string) :
  keeps_bound (on_publish packet_payload client).
Proof. unfold on_publish. bound. Qed.

Lemma keeps_bound_on_clientDisconnect (client : option string) :
  keeps_bound (on_clientDisconnect client).
Proof. unfold on_clientDisconnect. bound. Qed.

#[local] Hint Resolve keeps_bound_on_client keeps_bound_on_publish
  keeps_bound_on_clientDisconnect : bound.

Lemma keeps_bound_run_operation (op : operation) : keeps_bound (run_operation op).
Proof. destruct op; cbn [run_operation]; bound. Qed.

Lemma run_bounded (ops : list operation) (w : World) :
  log_bounded w → log_bounded (run ops w).
Proof.
  revert w. induction ops as [|op ops IH]; intros w Hw; [done |].
  cbn. apply IH. by apply keeps_bound_run_operation.
Qed.

Lemma LOG_LIMIT_value : Z.of_nat LOG_LIMIT = 10000.
Proof. reflexivity. Qed.

(** C5. The log buffer of a manager that starts empty never holds more than
    10,000 entries, whatever sequence of manager calls and broker events runs
    on it. Appending 10,001 entries to an empty buffer leaves exactly the
    10,000 entries that were appended second to last, in order: the first one
    appended is the one evicted, and the second one appended is now the
    first. *)
Theorem log_buffer_bounded_fifo (epoch : nat → Z) :
  Z.of_nat LOG_LIMIT = 10000 ∧
  (∀ ops : list operation,
     Z.of_nat (length (logs (deviceManager (run ops (World_new epoch))))) <= 10000) ∧
  (∀ item : nat → string * string,
     let buffer := logs (deviceManager
                           (snd (addLogs (item <$> seq 0 (S LOG_LIMIT)) (World_new epoch)))) in
     buffer = entry_at epoch item <$> seq 1 LOG_LIMIT ∧
     Z.of_nat (length buffer) = 10000 ∧
     buffer !! 0%nat = Some (entry_at epoch item 1)).
Proof.
  split; [exact LOG_LIMIT_value |]. split.
  - intros ops. rewrite <- LOG_LIMIT_value. apply inj_le.
    apply (run_bounded ops (World_new epoch)). unfold log_bounded.
    cbn [World_new deviceManager DeviceManager_new logs length]. lia.
  - intros item buffer.
    assert (Hb : buffer = entry_at epoch item <$> seq 1 LOG_LIMIT).
    { subst buffer. rewrite addLogs_run. cbn [snd deviceManager logs World_new
        DeviceManager_new clock reads].
      rewrite imap_entry_at, foldl_push_capped by (cbn [length]; lia).
      cbn [app]. rewrite length_fmap, length_seq.
      replace (S LOG_LIMIT - LOG_LIMIT)%nat with 1%nat by lia.
      cbn [seq fmap list_fmap drop]. done. }
    split; [done |]. rewrite Hb. split.
    + rewrite length_fmap, length_seq. exact LOG_LIMIT_value.
    + rewrite list_lookup_fmap, lookup_seq_lt; [done |].
      pose proof LOG_LIMIT_value. lia.
Qed.

(** ** Updates of the registry: C6, C10 *)

(** C6. For every world and every id that is not in the registry,
    [updateDeviceData] returns without raising and leaves the whole world, so
    the device records, their number and the log buffer, as it was. *)
Theorem updateDeviceData_absent (mac : string) (data : object) (w : World) :
  record w mac = None →
  updateDeviceData mac data w = (Normal tt, w).
Proof. intros H. unfold record in H. by rewrite updateDeviceData_run, H. Qed.

Lemma updateDeviceData_absent_witness :
  record (World_new (λ _, 0)) "8e:83:c0:22:f6:04" = None ∧
  updateDeviceData "8e:83:c0:22:f6:04" {["status" := JStr "offline"]} (World_new (λ _, 0))
    = (Normal tt, World_new (λ _, 0)).
Proof.
  split; [reflexivity |].
  apply (updateDeviceData_absent "8e:83:c0:22:f6:04" {["status" := JStr "offline"]}
           (World_new (λ _, 0))).
  reflexivity.
Defined.

Lemma dom_insert_present (m : gmap string object) (mac : string) (device device' : object) :
  m !! mac = Some device →
  dom (<[mac := device']> m) = dom m ∧ size (<[mac := device']> m) = size m.
Proof.
  intros H.
  assert (Hdom : dom (<[mac := device']> m) = dom m).
  { rewrite dom_insert_L. apply subseteq_union_1_L, singleton_subseteq_l.
    by apply elem_of_dom_2 in H. }
  split; [done |]. by rewrite <- !size_dom, Hdom.
Qed.

(** What an update of a registered device does, by the value of [alarm]. *)
Lemma updateDeviceData_effect (mac : string) (data device : object) (w : World) :
  devices (deviceManager w) !! mac = Some device →
  let result := updateDeviceData mac data w in
  devices (deviceManager (snd result)) = <[mac := data ∪ device]> (devices (deviceManager w)) ∧
  match prop data "alarm" with
  | JArr names =>
      fst result = Normal tt ∧
      logs (deviceManager (snd result))
      = push_capped (logs (deviceManager w))
          {| time := LocaleString (clock w (reads w)) None;
             type := "alarm";
             content := "设备报警 [" +:+ mac +:+ "]：" +:+ String.concat "," names |}
  | other =>
      logs (deviceManager (snd result)) = logs (deviceManager w) ∧
      (ToBoolean other = false → fst result = Normal tt)
  end.
Proof.
  intros H result. subst result.
  rewrite updateDeviceData_run, H. cbn zeta.
  destruct (prop data "alarm") as [| |[n|n d]|s|t|names|fields] eqn:Ealarm;
    cbn [ToBoolean join];
    try (rewrite _addLog_run);
    repeat match goal with |- context [if ?b then _ else _] => destruct b end;
    cbn [fst snd deviceManager set_deviceManager set_devices devices logs];
    done.
Qed.

(** C10, amended. For every world, every id in the registry and every update
    object: when the [alarm] property of the object is a list, empty or not,
    [updateDeviceData] returns and pushes exactly one entry of type 'alarm'
    on the log buffer (the oldest entry leaves when the bound is passed);
    when [alarm] is absent or is anything but a list, the log buffer is
    unchanged, and the call returns if that value is falsy. In every case
    the record becomes the merge of the update into the old record, and the
    set of ids and the number of records are unchanged. *)
Theorem updateDeviceData_present (mac : string) (data device : object) (w : World) :
  record w mac = Some device →
  let result := updateDeviceData mac data w in
  record (snd result) mac = Some (data ∪ device) ∧
  dom (devices (deviceManager (snd result))) = dom (devices (deviceManager w)) ∧
  size (devices (deviceManager (snd result))) = size (devices (deviceManager w)) ∧
  match prop data "alarm" with
  | JArr names =>
      fst result = Normal tt ∧
      logs (deviceManager (snd result))
      = push_capped (logs (deviceManager w))
          {| time := LocaleString (clock w (reads w)) None;
             type := "alarm";
             content := "设备报警 [" +:+ mac +:+ "]：" +:+ String.concat "," names |}
  | other =>
      logs (deviceManager (snd result)) = logs (deviceManager w) ∧
      (ToBoolean other = false → fst result = Normal tt)
  end.
Proof.
  intros H result. unfold record in *.
  destruct (updateDeviceData_effect mac data device w H) as [Hdev Hlog].
  fold result in Hdev, Hlog.
  destruct (dom_insert_present _ mac device (data ∪ device) H) as [Hdom Hsize].
  rewrite Hdev, lookup_insert_eq. done.
Qed.

Lemma updateDeviceData_present_witness :
  record world_one_device "8e:83:c0:22:f6:04" = Some blank_record ∧
  fst (updateDeviceData "8e:83:c0:22:f6:04" {["alarm" := JArr ["SOS报警"]]} world_one_device)
    = Normal tt.
Proof.
  split; [reflexivity |].
  pose proof (updateDeviceData_present "8e:83:c0:22:f6:04"
                {["alarm" := JArr ["SOS报警"]]} blank_record
                world_one_device eq_refl) as H.
  exact (proj1 (proj2 (proj2 (proj2 H)))).
Defined.

(** C10 as stated fails: an update whose [alarm] is the empty list carries no
    non-empty alarm field, and one entry of type 'alarm' is pushed on the log
    buffer all the same. *)
Lemma update_empty_alarm_list_logs :
  record world_one_device "8e:83:c0:22:f6:04" ≠ None ∧
  prop {["alarm" := JArr []]} "alarm" = JArr [] ∧
  logs (deviceManager
          (snd (updateDeviceData "8e:83:c0:22:f6:04" {["alarm" := JArr []]} world_one_device)))
  = (logs (deviceManager world_one_device)
       ++ [{| time := LocaleString 1000 None; type := "alarm";
              content := "设备报警 [8e:83:c0:22:f6:04]：" |}])%list.
Proof. split; [discriminate |]. split; reflexivity. Qed.

(** ** What the handlers leave in the registry *)

Lemma valid_boot_dec (buffer : Buffer) : valid_boot buffer ∨ ¬ valid_boot buffer.
Proof.
  unfold valid_boot.
  destruct (decide (length buffer = 12%nat ∧ index buffer 11 = Some PACKET_TAIL)); auto.
Qed.

Lemma valid_tailed_dec (buffer : Buffer) : valid_tailed buffer ∨ ¬ valid_tailed buffer.
Proof.
  unfold valid_tailed.
  destruct (decide ((13 <= length buffer)%nat
                    ∧ index buffer (length buffer - 1) = Some PACKET_TAIL)); auto.
Qed.

Lemma getDevice_run (mac : string) (w : World) :
  getDevice mac w = (Normal (devices (deviceManager w) !! mac), w).
Proof. reflexivity. Qed.

Lemma addDevice_run (mac : string) (deviceInfo : object) (w : World) :
  addDevice mac deviceInfo w =
  (Normal tt,
   {| deviceManager :=
        {| devices := <[mac := <["alarm" := JArr []]> (<["healthData" := JObj []]> deviceInfo)]>
                        (devices (deviceManager w));
           logs := push_capped (logs (deviceManager w))
                     {| time := LocaleString (clock w (reads w)) None;
                        type := "info"; content := "设备上线：" +:+ mac |} |};
      window := window w; broker := broker w; clock := clock w;
      reads := S (reads w) |}).
Proof. reflexivity. Qed.

Lemma updateDeviceData_quiet_run (mac : string) (data : object) (w : World) :
  ToBoolean (prop data "alarm") = false →
  updateDeviceData mac data w =
  (Normal tt,
   {| deviceManager :=
        {| devices := match devices (deviceManager w) !! mac with
                      | Some device => <[mac := data ∪ device]> (devices (deviceManager w))
                      | None => devices (deviceManager w)
                      end;
           logs := logs (deviceManager w) |};
      window := window w; broker := broker w; clock := clock w; reads := reads w |}).
Proof.
  intros Hq. rewrite updateDeviceData_run, Hq.
  destruct (devices (deviceManager w) !! mac); [done |].
  by destruct w as [[? ?] ? ? ? ?].
Qed.




(** What the [switch] of the publish handler can do, on every input: raise
    before anything is changed, or return a result that is not a decoded
    frame, having at most merged the update of a failed frame. *)
Lemma dispatch_outcome (clientId : string) (buffer : Buffer) (hexData : string)
    (frameType : option Z) (w : World) :
  dispatch clientId buffer hexData frameType w = (Throw radix_error, w)
  ∨ ∃ parsedResult w',
      dispatch clientId buffer hexData frameType w = (Normal parsedResult, w') ∧
      (parsedResult = None ∨ parsedResult = Some (ParsedError "未知帧类型" hexData)) ∧
      window w' = window w ∧ broker w' = broker w ∧ clock w' = clock w ∧
      logs (deviceManager w') = logs (deviceManager w) ∧
      (reads w <= reads w')%nat ∧
      registry_step clientId w w'.
Proof.
  unfold dispatch.
  case_bool_decide as Eb.
  { rewrite bind_run, lift_run.
    destruct (valid_boot_dec buffer) as [Hv|Hv].
    - left. by rewrite parseBootVersionFrame_valid.
    - right. rewrite parseBootVersionFrame_invalid by done.
      exists None, w. repeat split; auto. by left. }
  case_bool_decide as Eh.
  { rewrite bind_run, lift_run.
    destruct (valid_tailed_dec buffer) as [Hv|Hv].
    - left. by rewrite parseHealthDataFrame_valid.
    - right. rewrite parseHealthDataFrame_invalid by done.
      rewrite bind_run, updateDeviceData_quiet_run by apply health_update_alarm.
      eexists None, _. split; [reflexivity |]. cbn.
      repeat split; auto. unfold registry_step. cbn.
      destruct (devices (deviceManager w) !! clientId) as [device|] eqn:E; [|by left].
      right. exists device, (health_update None). repeat split; auto. constructor. }
  case_bool_decide as Ea.
  { rewrite bind_run, lift_run.
    destruct (valid_tailed_dec buffer) as [Hv|Hv].
    - left. by rewrite parseAlarmDataFrame_valid.
    - right. rewrite parseAlarmDataFrame_invalid by done.
      rewrite bind_run. cbn [now].
      rewrite bind_run, updateDeviceData_quiet_run by apply alarm_update_None.
      eexists None, _. split; [reflexivity |]. cbn.
      repeat split; auto. unfold registry_step. cbn.
      destruct (devices (deviceManager w) !! clientId) as [device|] eqn:E; [|by left].
      right. exists device, (alarm_update None (LocaleString (clock w (reads w)) None)).
      repeat split; auto. constructor. }
  right. eexists _, w. split; [reflexivity |]. repeat split; auto. by left.
Qed.

(** The connect handler stores the record and logs, then raises at the
    window. *)
Lemma on_client_shape (client_id : string) (pid : Z) (w : World) :
  on_client client_id pid w =
  (Throw window_error,
   {| deviceManager :=
        {| devices := <[client_id := connect_record client_id
                                       (LocaleString (clock w (reads w)) None) pid]>
                        (devices (deviceManager w));
           logs := push_capped (logs (deviceManager w))
                     {| time := LocaleString (clock w (S (reads w))) None;
                        type := "info"; content := "设备上线：" +:+ client_id |} |};
      window := window w; broker := broker w; clock := clock w;
      reads := S (S (reads w)) |}).
Proof.
  unfold on_client. rewrite bind_run. cbn [now].
  by rewrite bind_run, addDevice_run, send_run.
Qed.

(** The disconnect handler merges its update, then raises at the window. *)
Lemma on_clientDisconnect_shape (client_id : string) (w : World) :
  on_clientDisconnect (Some client_id) w =
  (Throw window_error,
   {| deviceManager :=
        {| devices :=
             match devices (deviceManager w) !! client_id with
             | Some device =>
                 <[client_id := disconnect_update (LocaleString (clock w (reads w)) None)
                                ∪ device]> (devices (deviceManager w))
             | None => devices (deviceManager w)
             end;
           logs := logs (deviceManager w) |};
      window := window w; broker := broker w; clock := clock w; reads := S (reads w) |}).
Proof.
  unfold on_clientDisconnect. rewrite bind_run. cbn [now].
  by rewrite bind_run, updateDeviceData_quiet_run, send_run by reflexivity.
Qed.

(** ** The publish handler and the vitals: C3 *)

Lemma health_update_lookup (r : option HealthDataFrame) (k : string) :
  k ∈ vitals → is_Some (health_update r !! k).
Proof.
  unfold vitals. rewrite !elem_of_cons, elem_of_nil.
  intros [->|[->|[->|[->|[->|[]]]]]]; by eexists.
Qed.

Lemma health_update_absent (r : option HealthDataFrame) (k : string) :
  r ≫= healthData = None → k ∈ vitals → health_update r !! k = Some JUndefined.
Proof.
  intros Hr. unfold vitals. rewrite !elem_of_cons, elem_of_nil.
  destruct r as [frame|]; [cbn in Hr |];
    intros [->|[->|[->|[->|[->|[]]]]]]; unfold health_update, health_field;
    rewrite ?Hr; reflexivity.
Qed.


Lemma alarm_update_lookup (r : option AlarmDataFrame) (t : date_string) (k : string) :
  k ∈ vitals → alarm_update r t !! k = None.
Proof.
  unfold vitals. rewrite !elem_of_cons, elem_of_nil.
  intros [->|[->|[->|[->|[->|[]]]]]]; reflexivity.
Qed.




(** ** Connect and disconnect: C9 *)

Lemma disconnect_update_lookup (t : date_string) (device : object) (k : string) :
  k ≠ "status" → k ≠ "disconnectTime" →
  (disconnect_update t ∪ device) !! k = device !! k.
Proof.
  intros Hs Hd. apply lookup_union_r. unfold disconnect_update. cbn [list_to_map foldr].
  by rewrite !lookup_insert_ne, lookup_empty.
Qed.

Lemma disconnect_update_status (t : date_string) (device : object) :
  (disconnect_update t ∪ device) !! "status" = Some (JStr "offline") ∧
  (disconnect_update t ∪ device) !! "disconnectTime" = Some (JTime t).
Proof. split; by apply lookup_union_Some_l. Qed.

(** C9. For every device id, in the state that a connect event followed by a
    disconnect event leaves: the record created by the connect has status
    'online', and after the disconnect it has status 'offline' and a
    [disconnectTime], every other property being as the connect left it.
    More generally, on every world where the device has a record, whatever
    vitals it holds, the disconnect step sets [status] and [disconnectTime]
    and changes no other property. *)
Theorem connect_then_disconnect (client_id : string) (pid : Z) (w : World) :
  (∃ d1 d2,
     record (snd (on_client client_id pid w)) client_id = Some d1 ∧
     record (snd (on_clientDisconnect (Some client_id) (snd (on_client client_id pid w))))
            client_id = Some d2 ∧
     d1 !! "status" = Some (JStr "online") ∧
     d1 !! "disconnectTime" = None ∧
     d1 !! "healthData" = Some (JObj []) ∧
     d2 !! "status" = Some (JStr "offline") ∧
     d2 !! "disconnectTime"
       = Some (JTime (LocaleString (clock w (S (S (reads w)))) None)) ∧
     ∀ k, k ≠ "status" → k ≠ "disconnectTime" → d2 !! k = d1 !! k) ∧
  (∀ device, record w client_id = Some device →
     ∃ device',
       record (snd (on_clientDisconnect (Some client_id) w)) client_id = Some device' ∧
       device' !! "status" = Some (JStr "offline") ∧
       device' !! "disconnectTime" = Some (JTime (LocaleString (clock w (reads w)) None)) ∧
       ∀ k, k ≠ "status" → k ≠ "disconnectTime" → device' !! k = device !! k).
Proof.
  assert (Hstep : ∀ w device, record w client_id = Some device →
     ∃ device',
       record (snd (on_clientDisconnect (Some client_id) w)) client_id = Some device' ∧
       device' !! "status" = Some (JStr "offline") ∧
       device' !! "disconnectTime" = Some (JTime (LocaleString (clock w (reads w)) None)) ∧
       ∀ k, k ≠ "status" → k ≠ "disconnectTime" → device' !! k = device !! k).
  { intros w0 device Hrec. unfold record in *.
    rewrite on_clientDisconnect_shape. cbn [snd deviceManager devices].
    rewrite Hrec, lookup_insert_eq. eexists. split; [reflexivity |].
    destruct (disconnect_update_status (LocaleString (clock w0 (reads w0)) None) device)
      as [Hs Hd].
    split; [done |]. split; [done |].
    intros k. apply disconnect_update_lookup. }
  split; [| by apply Hstep].
  assert (Hrec1 : record (snd (on_client client_id pid w)) client_id
                  = Some (connect_record client_id
                            (LocaleString (clock w (reads w)) None) pid)).
  { rewrite on_client_shape. unfold record. cbn [snd deviceManager devices].
    by rewrite lookup_insert_eq. }
  destruct (Hstep _ _ Hrec1) as (d2 & Hrec2 & Hs & Hd & Hother).
  eexists. exists d2.
  split; [exact Hrec1 |]. split; [done |].
  split; [reflexivity |]. split; [reflexivity |]. split; [reflexivity |].
  split; [done |]. split; [| done].
  rewrite Hd. by rewrite on_client_shape.
Qed.

Lemma connect_then_disconnect_witness :
  record world_with_vitals "8e:83:c0:22:f6:04" = Some vitals_record ∧
  ∃ device',
    record (snd (on_clientDisconnect (Some "8e:83:c0:22:f6:04") world_with_vitals))
           "8e:83:c0:22:f6:04" = Some device' ∧
    device' !! "status" = Some (JStr "offline") ∧
    device' !! "disconnectTime" = Some (JTime (LocaleString 1000 None)) ∧
    ∀ k, k ≠ "status" → k ≠ "disconnectTime" → device' !! k = vitals_record !! k.
Proof.
  split; [reflexivity |].
  apply (proj2 (connect_then_disconnect "8e:83:c0:22:f6:04" 0 world_with_vitals)
           vitals_record).
  reflexivity.
Defined.

(** * Further properties of the decoder and of the response builder *)

Lemma byte_of_Z_eq (b : byte) (z : Z) : z = u8 b → byte_of_Z z = b.
Proof. intros ->. apply byte_of_Z_u8. Qed.

(** X1. [parseHeader] never raises; it answers [null] exactly for a buffer of
    fewer than two bytes; otherwise its value is below 65536, depends on the
    first two bytes only, and gives them back as its high and low byte. *)
Theorem parseHeader_total (buffer : Buffer) :
  (parseHeader buffer = Normal None ↔ (length buffer < 2)%nat) ∧
  ∀ b0 b1 rest, buffer = b0 :: b1 :: rest →
    ∃ h, parseHeader buffer = Normal (Some h) ∧
         parseHeader [b0; b1] = Normal (Some h) ∧
         0 <= h < 65536 ∧
         byte_of_Z (h / 256) = b0 ∧ byte_of_Z (h mod 256) = b1.
Proof.
  split.
  - destruct buffer as [|b0 [|b1 rest]]; cbn; split; intros H; try done; try lia.
  - intros b0 b1 rest ->. exists (u8 b0 * 256 + u8 b1).
    pose proof (u8_range b0). pose proof (u8_range b1).
    split; [reflexivity |]. split; [reflexivity |]. split; [lia |].
    split; apply byte_of_Z_eq; Z.div_mod_to_equations; lia.
Qed.

Lemma parseHeader_total_witness :
  ∃ h, parseHeader boot_frame = Normal (Some h) ∧
       parseHeader [xaa; x44] = Normal (Some h) ∧
       0 <= h < 65536 ∧
       byte_of_Z (h / 256) = xaa ∧ byte_of_Z (h mod 256) = x44.
Proof.
  exact (proj2 (parseHeader_total boot_frame) xaa x44
           [x8e; x83; xc0; x22; xf6; x04; x31; x2e; x30; x0d] eq_refl).
Defined.

(** X2. None of the three frame parsers ever returns a record. On every
    buffer each one either answers [null], exactly when its length or tail
    check fails, or raises the RangeError of [_parseMAC], exactly when the
    check passes. *)
Theorem parsers_never_return_a_frame (buffer : Buffer) :
  (valid_boot buffer ∧ parseBootVersionFrame buffer = Throw radix_error
   ∨ ¬ valid_boot buffer ∧ parseBootVersionFrame buffer = Normal None) ∧
  (valid_tailed buffer ∧ parseHealthDataFrame buffer = Throw radix_error
                       ∧ parseAlarmDataFrame buffer = Throw radix_error
   ∨ ¬ valid_tailed buffer ∧ parseHealthDataFrame buffer = Normal None
                           ∧ parseAlarmDataFrame buffer = Normal None).
Proof.
  split.
  - destruct (valid_boot_dec buffer) as [Hv|Hv]; [left | right]; split; try done.
    + by apply parseBootVersionFrame_valid.
    + by apply parseBootVersionFrame_invalid.
  - destruct (valid_tailed_dec buffer) as [Hv|Hv]; [left | right];
      (split; [done |]); split.
    + by apply parseHealthDataFrame_valid.
    + by apply parseAlarmDataFrame_valid.
    + by apply parseHealthDataFrame_invalid.
    + by apply parseAlarmDataFrame_invalid.
Qed.

(** X3. [_parseMAC] returns only for the empty buffer, with the empty string;
    on every buffer that holds a byte it raises the RangeError of
    [toString('hex')]. *)
Theorem _parseMAC_returns_iff_empty (macBuffer : Buffer) :
  (macBuffer = [] ∧ _parseMAC macBuffer = Normal "")
  ∨ (macBuffer ≠ [] ∧ _parseMAC macBuffer = Throw radix_error).
Proof. destruct macBuffer as [|b bs]; [left | right]; by split. Qed.

(** X4. [_parseAlarmType] looks at the two low bits of the alarm byte only:
    the list is low-battery then SOS when both are set, the one alarm when one
    is set, and the unknown alarm when neither is; it is never empty. *)
Theorem _parseAlarmType_bits (alarmByte : byte) :
  _parseAlarmType (u8 alarmByte)
  = match Z.testbit (u8 alarmByte) 0, Z.testbit (u8 alarmByte) 1 with
    | true, true => ["低电量报警"; "SOS报警"]
    | true, false => ["低电量报警"]
    | false, true => ["SOS报警"]
    | false, false => ["未知报警"]
    end
  ∧ _parseAlarmType (u8 alarmByte) = _parseAlarmType (u8 alarmByte mod 4)
  ∧ _parseAlarmType (u8 alarmByte) ≠ [].
Proof. destruct alarmByte; repeat split; try reflexivity; discriminate. Qed.

(** X5. [_parseWearStatus] looks at bit 0 only: worn for an odd status byte,
    not worn for an even one, whatever the other bits are. *)
Theorem _parseWearStatus_parity (statusByte : Z) :
  _parseWearStatus statusByte = (if Z.odd statusByte then "已佩戴" else "未佩戴").
Proof.
  unfold _parseWearStatus.
  change 1 with (Z.ones 1). rewrite Z.land_ones by lia. change (2 ^ 1) with 2.
  rewrite Zmod_odd. by destruct (Z.odd statusByte).
Qed.

(** X6. [_parseTemperature] reads the first four bytes as a two's-complement
    big-endian word and returns it over 10: the word lies in the signed 32-bit
    range, is congruent to the unsigned reading, and is negative exactly when
    the top bit of the first byte is set. A buffer of fewer than four bytes
    makes it raise. *)
Theorem _parseTemperature_signed (tempBuffer : Buffer) :
  (∀ b0 b1 b2 b3 rest, tempBuffer = b0 :: b1 :: b2 :: b3 :: rest →
     ∃ temp, _parseTemperature tempBuffer = Normal (Quot temp 10) ∧
             - 2 ^ 31 <= temp < 2 ^ 31 ∧
             temp mod 2 ^ 32 = be32 b0 b1 b2 b3 ∧
             (temp < 0 ↔ 128 <= u8 b0)) ∧
  ((length tempBuffer < 4)%nat →
     _parseTemperature tempBuffer = Throw (RangeError "ERR_OUT_OF_RANGE")).
Proof.
  split.
  - intros b0 b1 b2 b3 rest ->.
    pose proof (u8_range b0). pose proof (u8_range b1).
    pose proof (u8_range b2). pose proof (u8_range b3).
    unfold _parseTemperature, readInt32BE, readUInt32BE.
    cbn [lookup list_lookup Nat.add mbind completion_bind mret completion_ret].
    fold (be32 b0 b1 b2 b3).
    assert (Hr : 0 <= be32 b0 b1 b2 b3 < 2 ^ 32) by (unfold be32; lia).
    destruct (Z.ltb_spec (be32 b0 b1 b2 b3) (2 ^ 31)) as [Hlt|Hge]; eexists;
      (split; [reflexivity |]).
    + split; [lia |]. split; [by apply Z.mod_small |]. unfold be32 in *. lia.
    + split; [lia |]. split.
      * rewrite <- (Z.mod_small (be32 b0 b1 b2 b3) (2 ^ 32)) at 2 by lia.
        rewrite <- (Z_mod_plus_full (be32 b0 b1 b2 b3 - 2 ^ 32) 1 (2 ^ 32)).
        f_equal. lia.
      * unfold be32 in *. lia.
  - intros Hlen.
    destruct tempBuffer as [|b0 [|b1 [|b2 [|b3 rest]]]]; cbn in Hlen; try lia; reflexivity.
Qed.

Lemma _parseTemperature_signed_witness :
  ∃ temp, _parseTemperature [xff; xff; xff; x9c] = Normal (Quot temp 10) ∧
          - 2 ^ 31 <= temp < 2 ^ 31 ∧
          temp mod 2 ^ 32 = be32 xff xff xff x9c ∧
          (temp < 0 ↔ 128 <= u8 xff).
Proof.
  exact (proj1 (_parseTemperature_signed [xff; xff; xff; x9c]) xff xff xff x9c [] eq_refl).
Defined.

(** X7. [_parseTimestamp] reads the first four bytes little-endian: the
    seconds are below 2^32, byte [i] of the buffer is digit [i] of the seconds
    in base 256, and the value handed to [Date] is the seconds times 1000,
    rendered for the locale zh-CN. A buffer of fewer than four bytes makes it
    raise. *)
Theorem _parseTimestamp_bytes (timestampBuffer : Buffer) :
  (∀ b0 b1 b2 b3 rest, timestampBuffer = b0 :: b1 :: b2 :: b3 :: rest →
     ∃ seconds, _parseTimestamp timestampBuffer
                = Normal (LocaleString (seconds * 1000) (Some "zh-CN")) ∧
                seconds = le32 b0 b1 b2 b3 ∧
                0 <= seconds < 2 ^ 32 ∧
                byte_of_Z (seconds mod 256) = b0 ∧
                byte_of_Z (seconds / 256 mod 256) = b1 ∧
                byte_of_Z (seconds / 2 ^ 16 mod 256) = b2 ∧
                byte_of_Z (seconds / 2 ^ 24) = b3) ∧
  ((length timestampBuffer < 4)%nat →
     _parseTimestamp timestampBuffer = Throw (RangeError "ERR_OUT_OF_RANGE")).
Proof.
  split.
  - intros b0 b1 b2 b3 rest ->. exists (le32 b0 b1 b2 b3).
    pose proof (u8_range b0). pose proof (u8_range b1).
    pose proof (u8_range b2). pose proof (u8_range b3).
    split; [reflexivity |]. split; [done |]. unfold le32.
    change (2 ^ 8) with 256. change (2 ^ 16) with 65536.
    change (2 ^ 24) with 16777216. change (2 ^ 32) with 4294967296.
    split; [lia |].
    repeat split; apply byte_of_Z_eq; Z.div_mod_to_equations; lia.
  - intros Hlen.
    destruct timestampBuffer as [|b0 [|b1 [|b2 [|b3 rest]]]]; cbn in Hlen; try lia;
      reflexivity.
Qed.

Lemma _parseTimestamp_bytes_witness :
  ∃ seconds, _parseTimestamp [x10; x32; x54; x66]
             = Normal (LocaleString (seconds * 1000) (Some "zh-CN")) ∧
             seconds = le32 x10 x32 x54 x66 ∧
             0 <= seconds < 2 ^ 32 ∧
             byte_of_Z (seconds mod 256) = x10 ∧
             byte_of_Z (seconds / 256 mod 256) = x32 ∧
             byte_of_Z (seconds / 2 ^ 16 mod 256) = x54 ∧
             byte_of_Z (seconds / 2 ^ 24) = x66.
Proof.
  exact (proj1 (_parseTimestamp_bytes [x10; x32; x54; x66]) x10 x32 x54 x66 [] eq_refl).
Defined.

Lemma strip_colons_hex_of_byte (b : byte) (s : string) :
  strip_colons (hex_of_byte b +:+ s) = hex_of_byte b +:+ strip_colons s.
Proof. destruct b; reflexivity. Qed.

Lemma Buffer_from_hex_hex_of_byte (b : byte) (s : string) :
  Buffer_from_hex (hex_of_byte b +:+ s) = b :: Buffer_from_hex s.
Proof. destruct b; reflexivity. Qed.

Lemma strip_colons_colon_mac (bs : Buffer) :
  strip_colons (colon_mac bs) = Buffer_toString_hex bs.
Proof.
  unfold colon_mac. induction bs as [|b bs IH]; [done |].
  destruct bs as [|b' bs].
  - clear IH. destruct b; reflexivity.
  - change (String.concat ":" (hex_of_byte <$> b :: b' :: bs))
      with (hex_of_byte b +:+ String ":" (String.concat ":" (hex_of_byte <$> b' :: bs))).
    rewrite strip_colons_hex_of_byte. cbn [strip_colons Ascii.eqb Bool.eqb].
    rewrite IH. reflexivity.
Qed.

(** X8. Stripping the colons from a colon-separated MAC and decoding the
    digits gives the MAC bytes back, for a MAC of any length; so for a device
    whose id is the colon form of six bytes, the acknowledgement that the
    publish handler builds carries exactly those six bytes. *)
Theorem response_for_colon_mac (bs : Buffer) :
  Buffer_from_hex (strip_colons (colon_mac bs)) = bs ∧
  ∀ b0 b1 b2 b3 b4 b5, bs = [b0; b1; b2; b3; b4; b5] →
    String.length (colon_mac bs) = 17%nat ∧
    generateResponseFrame (strip_colons (colon_mac bs)) (Some FRAME_TYPE.BOOT_VERSION)
      = Some [xaa; x44; b0; b1; b2; b3; b4; b5; x00; x00; x0d] ∧
    generateResponseFrame (strip_colons (colon_mac bs)) (Some FRAME_TYPE.HEALTH_DATA)
      = Some [xaa; x55; b0; b1; b2; b3; b4; b5; x01; x0d] ∧
    generateResponseFrame (strip_colons (colon_mac bs)) (Some FRAME_TYPE.ALARM_DATA)
      = Some [xaa; x77; b0; b1; b2; b3; b4; b5; x01; x0d].
Proof.
  assert (Hrt : Buffer_from_hex (strip_colons (colon_mac bs)) = bs)
    by (by rewrite strip_colons_colon_mac, Buffer_from_hex_toString).
  split; [done |].
  intros b0 b1 b2 b3 b4 b5 Hbs. split.
  - subst bs. reflexivity.
  - unfold generateResponseFrame. rewrite Hrt, Hbs. by repeat split.
Qed.

Lemma response_for_colon_mac_witness :
  String.length (colon_mac [x8e; x83; xc0; x22; xf6; x04]) = 17%nat ∧
  generateResponseFrame (strip_colons (colon_mac [x8e; x83; xc0; x22; xf6; x04]))
    (Some FRAME_TYPE.BOOT_VERSION)
    = Some [xaa; x44; x8e; x83; xc0; x22; xf6; x04; x00; x00; x0d] ∧
  generateResponseFrame (strip_colons (colon_mac [x8e; x83; xc0; x22; xf6; x04]))
    (Some FRAME_TYPE.HEALTH_DATA)
    = Some [xaa; x55; x8e; x83; xc0; x22; xf6; x04; x01; x0d] ∧
  generateResponseFrame (strip_colons (colon_mac [x8e; x83; xc0; x22; xf6; x04]))
    (Some FRAME_TYPE.ALARM_DATA)
    = Some [xaa; x77; x8e; x83; xc0; x22; xf6; x04; x01; x0d].
Proof.
  exact (proj2 (response_for_colon_mac [x8e; x83; xc0; x22; xf6; x04])
           x8e x83 xc0 x22 xf6 x04 eq_refl).
Defined.

Lemma known_frameType_cases (frameType : option Z) :
  known_frameType frameType = true →
  frameType = Some FRAME_TYPE.BOOT_VERSION ∨ frameType = Some FRAME_TYPE.HEALTH_DATA
  ∨ frameType = Some FRAME_TYPE.ALARM_DATA.
Proof.
  unfold known_frameType. intros H.
  repeat case_bool_decide; auto. discriminate H.
Qed.

Lemma index_last (l : Buffer) (b : byte) :
  index (l ++ [b]) (length (l ++ [b]) - 1) = Some (u8 b).
Proof.
  unfold index. rewrite length_app. cbn [length].
  replace (length l + 1 - 1)%nat with (length l) by lia.
  by rewrite list_lookup_middle.
Qed.

(** X9. For every string given as MAC, hexadecimal or not, and every known
    frame type, [generateResponseFrame] returns a frame whose header reads
    back, through [parseHeader], as that frame type, whose last byte is the
    tail 0x0D, and whose length is that of the decoded MAC plus 5 for a
    boot-version answer and plus 4 for the other two. *)
Theorem response_header_round_trip (mac : string) (frameType : option Z) :
  known_frameType frameType = true →
  ∃ frame, generateResponseFrame mac frameType = Some frame ∧
           parseHeader frame = Normal frameType ∧
           index frame (length frame - 1) = Some PACKET_TAIL ∧
           length frame
           = (length (Buffer_from_hex mac)
              + if bool_decide (frameType = Some FRAME_TYPE.BOOT_VERSION) then 5 else 4)%nat.
Proof.
  intros Hk. unfold generateResponseFrame. set (m := Buffer_from_hex mac).
  destruct (known_frameType_cases frameType Hk) as [-> | [-> | ->]].
  - exists ((xaa :: x44 :: m ++ [x00; x00]) ++ [x0d])%list.
    split; [cbn; by rewrite <- app_assoc |]. split; [reflexivity |].
    split; [apply index_last |].
    vm_compute (bool_decide _).
    rewrite length_app. cbn [length]. rewrite length_app. cbn [length]. lia.
  - exists ((xaa :: x55 :: m ++ [x01]) ++ [x0d])%list.
    split; [cbn; by rewrite <- app_assoc |]. split; [reflexivity |].
    split; [apply index_last |].
    vm_compute (bool_decide _).
    rewrite length_app. cbn [length]. rewrite length_app. cbn [length]. lia.
  - exists ((xaa :: x77 :: m ++ [x01]) ++ [x0d])%list.
    split; [cbn; by rewrite <- app_assoc |]. split; [reflexivity |].
    split; [apply index_last |].
    vm_compute (bool_decide _).
    rewrite length_app. cbn [length]. rewrite length_app. cbn [length]. lia.
Qed.

Lemma response_header_round_trip_witness :
  ∃ frame, generateResponseFrame "not a mac" (Some FRAME_TYPE.ALARM_DATA) = Some frame ∧
           parseHeader frame = Normal (Some FRAME_TYPE.ALARM_DATA) ∧
           index frame (length frame - 1) = Some PACKET_TAIL ∧
           length frame
           = (length (Buffer_from_hex "not a mac")
              + if bool_decide (Some FRAME_TYPE.ALARM_DATA = Some FRAME_TYPE.BOOT_VERSION)
                then 5 else 4)%nat.
Proof.
  apply (response_header_round_trip "not a mac" (Some FRAME_TYPE.ALARM_DATA)). reflexivity.
Defined.

(** X10. An acknowledgement built for a MAC of twelve hexadecimal digits is
    never accepted by the decoder of the gateway itself: it is 11 or 10 bytes
    long, so the frame parser of its own frame type answers [null]. *)
Theorem response_is_not_an_uplink_frame (mac : string) (frameType : option Z)
    (frame : Buffer) :
  hex_mac mac →
  generateResponseFrame mac frameType = Some frame →
  structural_failure frame ∧
  parseBootVersionFrame frame = Normal None ∧
  parseHealthDataFrame frame = Normal None ∧
  parseAlarmDataFrame frame = Normal None.
Proof.
  intros Hmac Hgen.
  destruct (Buffer_from_hex_12 mac Hmac) as [Hlen _].
  assert (Hshort : (length frame < 12)%nat).
  { unfold generateResponseFrame in Hgen. destruct frameType as [t|]; [|done].
    repeat case_match; simplify_eq; rewrite !length_app; cbn [length app]; lia. }
  assert (Hb : ¬ valid_boot frame) by (intros [? _]; lia).
  assert (Ht : ¬ valid_tailed frame) by (intros [? _]; lia).
  split.
  - destruct (parseHeader_returns frame) as [ft Hft]. exists ft. by repeat split.
  - split; [by apply parseBootVersionFrame_invalid |].
    split; [by apply parseHealthDataFrame_invalid | by apply parseAlarmDataFrame_invalid].
Qed.

Lemma response_is_not_an_uplink_frame_witness :
  structural_failure [xaa; x44; x8e; x83; xc0; x22; xf6; x04; x00; x00; x0d] ∧
  parseBootVersionFrame [xaa; x44; x8e; x83; xc0; x22; xf6; x04; x00; x00; x0d] = Normal None ∧
  parseHealthDataFrame [xaa; x44; x8e; x83; xc0; x22; xf6; x04; x00; x00; x0d] = Normal None ∧
  parseAlarmDataFrame [xaa; x44; x8e; x83; xc0; x22; xf6; x04; x00; x00; x0d] = Normal None.
Proof.
  apply (response_is_not_an_uplink_frame "8e83c022f604" (Some FRAME_TYPE.BOOT_VERSION)).
  - apply hex_mac_example.
  - reflexivity.
Defined.

(** * Further properties of the device manager *)

(** X11. [addDevice] never raises and stores a record that [getDevice]
    returns: its [healthData] is the empty object and its [alarm] the empty
    list, whatever the description gave for them, and every other property
    is the one of the description, so nothing of an earlier record of the same
    id survives. The records of the other ids are untouched, the registry
    grows by one exactly when the id is new, and one 'info' entry is pushed on
    the log buffer. *)
Theorem addDevice_then_getDevice (mac : string) (deviceInfo : object) (w : World) :
  let w' := snd (addDevice mac deviceInfo w) in
  fst (addDevice mac deviceInfo w) = Normal tt ∧
  (∃ r, getDevice mac w' = (Normal (Some r), w') ∧
        r !! "healthData" = Some (JObj []) ∧
        r !! "alarm" = Some (JArr []) ∧
        ∀ k, k ≠ "healthData" → k ≠ "alarm" → r !! k = deviceInfo !! k) ∧
  (∀ mac', mac' ≠ mac → record w' mac' = record w mac') ∧
  size (devices (deviceManager w'))
    = (if record w mac is Some _ then size (devices (deviceManager w))
       else S (size (devices (deviceManager w)))) ∧
  logs (deviceManager w')
    = push_capped (logs (deviceManager w))
        {| time := LocaleString (clock w (reads w)) None;
           type := "info"; content := "设备上线：" +:+ mac |}.
Proof.
  intros w'. subst w'. rewrite addDevice_run. cbn [fst snd].
  split; [done |]. split.
  { eexists. rewrite getDevice_run. cbn [deviceManager devices].
    rewrite lookup_insert_eq. split; [reflexivity |].
    split; [by rewrite lookup_insert_ne, lookup_insert_eq |].
    split; [by rewrite lookup_insert_eq |].
    intros k Hh Ha. by rewrite !lookup_insert_ne. }
  split.
  { intros mac' Hne. unfold record. cbn [deviceManager devices].
    by rewrite lookup_insert_ne. }
  split; [| done].
  unfold record. cbn [deviceManager devices].
  destruct (devices (deviceManager w) !! mac) as [device|] eqn:E.
  - by destruct (dom_insert_present _ mac device
                   (<["alarm" := JArr []]> (<["healthData" := JObj []]> deviceInfo)) E).
  - by apply map_size_insert_None.
Qed.

(** X12. Two updates of one id compose into the update by the merged object,
    the later one winning on the keys they share; in particular an update
    applied twice leaves the records as applied once. This holds for every
    id, registered or not, and every pair of objects. *)
Theorem updateDeviceData_compose (mac : string) (data1 data2 : object) (w : World) :
  devices (deviceManager
             (snd (updateDeviceData mac data2 (snd (updateDeviceData mac data1 w)))))
  = devices (deviceManager (snd (updateDeviceData mac (data2 ∪ data1) w))) ∧
  devices (deviceManager
             (snd (updateDeviceData mac data1 (snd (updateDeviceData mac data1 w)))))
  = devices (deviceManager (snd (updateDeviceData mac data1 w))).
Proof.
  assert (Hgen : ∀ d1 d2,
    devices (deviceManager (snd (updateDeviceData mac d2 (snd (updateDeviceData mac d1 w)))))
    = devices (deviceManager (snd (updateDeviceData mac (d2 ∪ d1) w)))).
  { intros d1 d2.
    destruct (devices (deviceManager w) !! mac) as [device|] eqn:E.
    - destruct (updateDeviceData_effect mac d1 device w E) as [H1 _].
      destruct (updateDeviceData_effect mac (d2 ∪ d1) device w E) as [H12 _].
      cbn zeta in *.
      assert (E1 : devices (deviceManager (snd (updateDeviceData mac d1 w))) !! mac
                   = Some (d1 ∪ device)) by (by rewrite H1, lookup_insert_eq).
      destruct (updateDeviceData_effect mac d2 _ _ E1) as [H2 _]. cbn zeta in *.
      rewrite H2, H1, H12, insert_insert_eq. by rewrite (assoc_L (∪)).
    - assert (Hno : ∀ d, updateDeviceData mac d w = (Normal tt, w))
        by (intros d; by rewrite updateDeviceData_run, E).
      rewrite (Hno d1). cbn [snd]. by rewrite (Hno d2), (Hno (d2 ∪ d1)). }
  split; [apply Hgen |].
  rewrite Hgen. by rewrite (idemp_L (∪)).
Qed.

(** X13. An update touches the record of its own id only: the record of every
    other id is the same after the call, whether the call returns or
    raises. *)
Theorem updateDeviceData_other (mac mac' : string) (data : object) (w : World) :
  mac' ≠ mac →
  record (snd (updateDeviceData mac data w)) mac' = record w mac'.
Proof.
  intros Hne. unfold record.
  destruct (devices (deviceManager w) !! mac) as [device|] eqn:E.
  - destruct (updateDeviceData_effect mac data device w E) as [H _]. cbn zeta in H.
    by rewrite H, lookup_insert_ne.
  - by rewrite updateDeviceData_run, E.
Qed.

Lemma updateDeviceData_other_witness :
  record (snd (updateDeviceData "8e:83:c0:22:f6:04" {["alarm" := JStr "x"]}
                 world_with_vitals)) "00:00:00:00:00:01"
  = record world_with_vitals "00:00:00:00:00:01".
Proof.
  apply (updateDeviceData_other "8e:83:c0:22:f6:04" "00:00:00:00:00:01"). discriminate.
Defined.

Lemma LOG_LIMIT_pos : (1 <= LOG_LIMIT)%nat.
Proof. pose proof LOG_LIMIT_value. lia. Qed.

(** X14. Any number of [_addLog] calls on a buffer within its bound leaves
    the last 10,000 entries of the old buffer followed by the new entries, in
    the order they were appended; while the total stays within the bound
    nothing is evicted. The calls never raise. *)
Theorem addLogs_keeps_newest (items : list (string * string)) (w : World) :
  log_bounded w →
  fst (addLogs items w) = Normal tt ∧
  logs (deviceManager (snd (addLogs items w)))
  = drop (length (logs (deviceManager w) ++ stamped w items) - LOG_LIMIT)
         (logs (deviceManager w) ++ stamped w items) ∧
  ((length (logs (deviceManager w)) + length items <= LOG_LIMIT)%nat →
   logs (deviceManager (snd (addLogs items w)))
   = (logs (deviceManager w) ++ stamped w items)%list).
Proof.
  intros Hb. rewrite addLogs_run. cbn [fst snd deviceManager logs].
  split; [done |]. fold (stamped w items).
  rewrite foldl_push_capped by done. split; [done |].
  intros Hfit.
  replace (length (logs (deviceManager w) ++ stamped w items) - LOG_LIMIT)%nat with 0%nat;
    [done |].
  rewrite length_app. unfold stamped. rewrite length_imap. lia.
Qed.

Lemma addLogs_keeps_newest_witness :
  fst (addLogs [("a", "info"); ("b", "alarm")] world_one_device) = Normal tt ∧
  logs (deviceManager (snd (addLogs [("a", "info"); ("b", "alarm")] world_one_device)))
  = drop (length (logs (deviceManager world_one_device)
                  ++ stamped world_one_device [("a", "info"); ("b", "alarm")]) - LOG_LIMIT)
         (logs (deviceManager world_one_device)
          ++ stamped world_one_device [("a", "info"); ("b", "alarm")]) ∧
  ((length (logs (deviceManager world_one_device)) + 2 <= LOG_LIMIT)%nat →
   logs (deviceManager (snd (addLogs [("a", "info"); ("b", "alarm")] world_one_device)))
   = (logs (deviceManager world_one_device)
      ++ stamped world_one_device [("a", "info"); ("b", "alarm")])%list).
Proof.
  apply (addLogs_keeps_newest [("a", "info"); ("b", "alarm")] world_one_device).
  unfold log_bounded. cbn [world_one_device]. pose proof LOG_LIMIT_pos.
  change (length (logs (deviceManager world_one_device))) with 1%nat. lia.
Defined.

(** X15. After [_addLog] the new entry is the last of the buffer, whatever
    the buffer held. The buffer grows by one while it holds fewer than 10,000
    entries, and keeps its length otherwise: one entry is shifted out for the
    one pushed, so the call never shortens the buffer. *)
Theorem _addLog_newest_last (content type : string) (w : World) :
  let entry := {| time := LocaleString (clock w (reads w)) None;
                  type := type; content := content |} in
  let after := logs (deviceManager (snd (_addLog content type w))) in
  last after = Some entry ∧
  length after = (if (length (logs (deviceManager w)) <? LOG_LIMIT)%nat
                  then S (length (logs (deviceManager w)))
                  else length (logs (deviceManager w))).
Proof.
  intros entry after. subst after. rewrite _addLog_run. cbn [snd deviceManager logs].
  fold entry. unfold push_capped. pose proof LOG_LIMIT_pos as Hpos.
  rewrite length_app. cbn [length].
  destruct (Nat.ltb_spec LOG_LIMIT (length (logs (deviceManager w)) + 1)) as [Hgt|Hle];
    destruct (Nat.ltb_spec (length (logs (deviceManager w))) LOG_LIMIT) as [Hlt|Hge];
    try lia.
  - destruct (logs (deviceManager w)) as [|x l]; cbn [length] in *; [lia |].
    cbn [app tail]. rewrite last_snoc, length_app. cbn [length]. split; [done | lia].
  - rewrite last_snoc, length_app. cbn [length]. split; [done | lia].
Qed.

(** * Further properties of the broker handlers *)

(** The publish handler on a payload of a client, on every input. *)
Lemma on_publish_shape (packet_payload : Buffer) (clientId : string) (w : World) :
  on_publish (Some packet_payload) (Some clientId) w = (Throw radix_error, w)
  ∨ ∃ w',
      on_publish (Some packet_payload) (Some clientId) w = (Throw window_error, w') ∧
      window w' = window w ∧ broker w' = broker w ∧
      logs (deviceManager w') = logs (deviceManager w) ∧
      registry_step clientId w w'.
Proof.
  unfold on_publish. rewrite Buffer_from_hex_toString.
  destruct (parseHeader_returns packet_payload) as [frameType Hh].
  rewrite bind_run, lift_run, Hh, bind_run.
  destruct (dispatch_outcome clientId packet_payload (Buffer_toString_hex packet_payload)
              frameType w)
    as [Hthrow | (parsedResult & w1 & Hd & Hres & Hwin & Hbr & Hclk & Hlogs & _ & Hreg)].
  - left. by rewrite Hthrow.
  - right. exists w1. by rewrite Hd, respond_run.
Qed.



(** ** What no sequence of calls does *)

Create HintDb frame discriminated.

Lemma preserves_ret {A} (R : relation World) (a : A) :
  Reflexive R → preserves R (mret a : M A).
Proof. intros HR w. apply HR. Qed.

Lemma preserves_lift {A} (R : relation World) (c : completion A) :
  Reflexive R → preserves R (lift c).
Proof. intros HR w. apply HR. Qed.

Lemma preserves_bind {A B} (R : relation World) (m : M A) (f : A → M B) :
  Transitive R →
  preserves R m → (∀ a, preserves R (f a)) → preserves R (m ≫= f).
Proof.
  intros HR Hm Hf w. rewrite bind_run. specialize (Hm w).
  destruct (m w) as [[a|e] w']; cbn [snd] in *; [|done].
  eapply HR; [exact Hm | apply Hf].
Qed.

Lemma same_broker_refl : Reflexive same_broker.
Proof. by intros w. Qed.

Lemma same_broker_trans : Transitive same_broker.
Proof. unfold same_broker. intros w1 w2 w3 H12 H23. congruence. Qed.

Lemma ids_kept_refl : Reflexive ids_kept.
Proof. intros w. unfold ids_kept. done. Qed.

Lemma ids_kept_trans : Transitive ids_kept.
Proof. unfold ids_kept. intros w1 w2 w3 H12 H23. by etrans. Qed.

Lemma same_broker_now : preserves same_broker now.
Proof. by intros w. Qed.

Lemma same_broker_mainWindow : preserves same_broker mainWindow.
Proof. by intros w. Qed.

Lemma same_broker_deliver (channel : string) (payload : ipc_payload) :
  preserves same_broker (deliver channel payload).
Proof. by intros w. Qed.

Lemma same_broker_get : preserves same_broker get_deviceManager.
Proof. by intros w. Qed.

Lemma same_broker_modify (f : DeviceManager → DeviceManager) :
  preserves same_broker (modify f).
Proof. by intros w. Qed.

Lemma ids_kept_now : preserves ids_kept now.
Proof. intros w. unfold ids_kept. by cbn. Qed.

Lemma ids_kept_mainWindow : preserves ids_kept mainWindow.
Proof. intros w. unfold ids_kept. by cbn. Qed.

Lemma ids_kept_deliver (channel : string) (payload : ipc_payload) :
  preserves ids_kept (deliver channel payload).
Proof. intros w. unfold ids_kept. by cbn. Qed.

Lemma ids_kept_publish (p : publication) : preserves ids_kept (Aedes_publish p).
Proof. intros w. unfold ids_kept. by cbn. Qed.

Lemma ids_kept_get : preserves ids_kept get_deviceManager.
Proof. intros w. unfold ids_kept. by cbn. Qed.

Lemma ids_kept_set_logs (f : list LogEntry → list LogEntry) :
  preserves ids_kept (modify (set_logs f)).
Proof. intros w. unfold ids_kept. by cbn. Qed.

Lemma ids_kept_insert (mac : string) (device : object) :
  preserves ids_kept (modify (set_devices (<[mac := device]>))).
Proof.
  intros w. unfold ids_kept. cbn. rewrite dom_insert_L. apply union_subseteq_r.
Qed.

#[local] Hint Resolve same_broker_now same_broker_mainWindow same_broker_deliver
  same_broker_get same_broker_modify
  ids_kept_now ids_kept_mainWindow ids_kept_deliver ids_kept_publish ids_kept_get
  ids_kept_set_logs ids_kept_insert : frame.

#[local] Hint Resolve same_broker_refl same_broker_trans ids_kept_refl ids_kept_trans
  preserves_ret preserves_lift : frame.

Ltac frame :=
  repeat first
    [ progress eauto with frame
    | apply preserves_bind; [eauto with frame | | intros ?]
    | match goal with
      | |- preserves _ (if ?b then _ else _) => destruct b
      | |- preserves _ (match ?x with _ => _ end) => destruct x
      end ].

Lemma same_broker__addLog (content type : string) :
  preserves same_broker (_addLog content type).
Proof. unfold _addLog. frame. Qed.

Lemma ids_kept__addLog (content type : string) : preserves ids_kept (_addLog content type).
Proof. unfold _addLog. frame. Qed.

#[local] Hint Resolve same_broker__addLog ids_kept__addLog : frame.

Lemma same_broker_on_publish (packet_payload : option Buffer) (client : option string) :
  preserves same_broker (on_publish packet_payload client).
Proof.
  intros w. unfold same_broker.
  destruct client as [clientId|], packet_payload as [packet_payload|]; try done.
  destruct (on_publish_shape packet_payload clientId w)
    as [-> | (w1 & -> & _ & Hbr & _)]; done.
Qed.

Lemma same_broker_run_operation (op : operation) :
  preserves same_broker (run_operation op).
Proof.
  destruct op; cbn [run_operation]; try apply same_broker_on_publish.
  - unfold addDevice. frame.
  - unfold updateDeviceData. frame.
  - unfold getDevice. frame.
  - unfold clear. frame.
  - unfold exportLogs. frame.
  - unfold on_client, addDevice, send, getDevice. frame.
  - unfold on_clientDisconnect, updateDeviceData, send, getDevice. frame.
Qed.

(** X17. No sequence of manager calls and broker events publishes anything:
    after every run the broker holds what it held before, so starting from a
    fresh world no acknowledgement is ever sent to a device. *)
Theorem run_never_publishes (ops : list operation) (w : World) :
  broker (run ops w) = broker w ∧
  ∀ epoch, broker (run ops (World_new epoch)) = [].
Proof.
  assert (H : ∀ w0, broker (run ops w0) = broker w0).
  { induction ops as [|op ops IH]; intros w0; [done |].
    change (run (op :: ops) w0) with (run ops (snd (run_operation op w0))).
    rewrite IH. apply same_broker_run_operation. }
  split; [apply H |]. intros epoch. by rewrite H.
Qed.

Lemma ids_kept_run_operation (op : operation) :
  not_clear op → preserves ids_kept (run_operation op).
Proof.
  destruct op; cbn [run_operation not_clear]; intros Hnc; try done.
  - unfold addDevice. frame.
  - unfold updateDeviceData. frame.
  - unfold getDevice. frame.
  - unfold exportLogs. frame.
  - unfold on_client, addDevice, send, getDevice. frame.
  - unfold on_publish, dispatch, respond, updateDeviceData, send. frame.
  - unfold on_clientDisconnect, updateDeviceData, send, getDevice. frame.
Qed.

(** X18. A registered id is never removed except by [clear]: after every
    sequence of calls and events in which [clear] does not occur, every id
    that was registered still is. *)
Theorem run_keeps_ids (ops : list operation) (w : World) :
  Forall not_clear ops →
  dom (devices (deviceManager w)) ⊆ dom (devices (deviceManager (run ops w))).
Proof.
  revert w. induction ops as [|op ops IH]; intros w Hops; [done |].
  apply Forall_cons in Hops as [Hop Hops].
  change (run (op :: ops) w) with (run ops (snd (run_operation op w))).
  etrans; [apply (ids_kept_run_operation op Hop w) | by apply IH].
Qed.

Lemma run_keeps_ids_witness :
  dom (devices (deviceManager world_with_vitals))
  ⊆ dom (devices (deviceManager
                    (run [Publish (Some [xaa; x55]) (Some "8e:83:c0:22:f6:04");
                          ClientDisconnect (Some "8e:83:c0:22:f6:04");
                          Client "00:00:00:00:00:01" 7]
                       world_with_vitals))).
Proof.
  apply (run_keeps_ids [Publish (Some [xaa; x55]) (Some "8e:83:c0:22:f6:04");
                        ClientDisconnect (Some "8e:83:c0:22:f6:04");
                        Client "00:00:00:00:00:01" 7] world_with_vitals).
  repeat (apply Forall_cons; split; [exact I |]). apply Forall_nil_2.
Defined.

(** ** What the broker events store *)

Lemma failed_update_lookup (upd : object) :
  failed_update upd →
  upd !! "healthData" = None ∧
  ∀ k, k ∈ vitals → upd !! k = None ∨ upd !! k = Some JUndefined.
Proof.
  intros [|t]; (split; [reflexivity |]); intros k Hk.
  - right. by apply health_update_absent.
  - left. by apply alarm_update_lookup.
Qed.

Lemma pristine_merge (upd device : object) :
  upd !! "healthData" = None →
  (∀ k, k ∈ vitals → upd !! k = None ∨ upd !! k = Some JUndefined) →
  pristine device → pristine (upd ∪ device).
Proof.
  intros Hh Hv [Hdh Hdv]. split.
  - by rewrite lookup_union_r.
  - intros k Hk. destruct (Hv k Hk) as [Hn | Hu].
    + rewrite lookup_union_r by done. by apply Hdv.
    + right. by apply lookup_union_Some_l.
Qed.

Lemma all_records_insert (P : object → Prop) (mac : string) (r : object) (w w' : World) :
  devices (deviceManager w') = <[mac := r]> (devices (deviceManager w)) →
  P r → all_records P w → all_records P w'.
Proof.
  intros Hd Hr Hw mac' r'. unfold record. rewrite Hd.
  destruct (decide (mac = mac')) as [->|Hne].
  - rewrite lookup_insert_eq. by intros [= <-].
  - rewrite lookup_insert_ne by done. apply Hw.
Qed.

Lemma all_records_same (P : object → Prop) (w w' : World) :
  devices (deviceManager w') = devices (deviceManager w) →
  all_records P w → all_records P w'.
Proof. intros Hd Hw mac r. unfold record. rewrite Hd. apply Hw. Qed.

Lemma connect_record_pristine (client_id : string) (t : date_string) (pid : Z) :
  pristine (connect_record client_id t pid).
Proof.
  split; [reflexivity |]. unfold vitals. intros k. rewrite !elem_of_cons, elem_of_nil.
  intros [->|[->|[->|[->|[->|[]]]]]]; by left.
Qed.

Lemma disconnect_update_clean (t : date_string) :
  disconnect_update t !! "healthData" = None ∧
  ∀ k, k ∈ vitals → disconnect_update t !! k = None ∨ disconnect_update t !! k = Some JUndefined.
Proof.
  split; [reflexivity |]. unfold vitals. intros k. rewrite !elem_of_cons, elem_of_nil.
  intros [->|[->|[->|[->|[->|[]]]]]]; by left.
Qed.

(** A property of records that the connect record has, and that merging a
    failed update or a disconnect update keeps, holds of every record after a
    broker event. *)
Lemma all_records_broker_event (P : object → Prop) (op : operation) (w : World) :
  (∀ client_id t pid, P (connect_record client_id t pid)) →
  (∀ upd device, failed_update upd → P device → P (upd ∪ device)) →
  (∀ t device, P device → P (disconnect_update t ∪ device)) →
  broker_event op → all_records P w → all_records P (snd (run_operation op w)).
Proof.
  intros Hconnect Hfailed Hdisconnect.
  destruct op as [| | | | |client_id pid|packet_payload client|client];
    cbn [broker_event run_operation]; intros Hev Hw; try done.
  - rewrite on_client_shape. cbn [snd].
    eapply all_records_insert; [reflexivity | apply Hconnect | exact Hw].
  - destruct client as [clientId|], packet_payload as [packet_payload|]; try done.
    destruct (on_publish_shape packet_payload clientId w)
      as [-> | (w1 & -> & _ & _ & _ & Hreg)]; [done |].
    cbn [snd].
    destruct Hreg as [Hsame | (device & upd & Hupd & Hdev & Hins)].
    + by eapply all_records_same.
    + eapply all_records_insert; [exact Hins | | exact Hw].
      apply Hfailed; [done |]. by apply (Hw clientId).
  - destruct client as [client_id|]; [|done].
    rewrite on_clientDisconnect_shape. cbn [snd].
    destruct (devices (deviceManager w) !! client_id) as [device|] eqn:E.
    + eapply all_records_insert; [reflexivity | | exact Hw].
      apply Hdisconnect. by apply (Hw client_id).
    + by eapply all_records_same.
Qed.

Lemma all_records_run (P : object → Prop) (ops : list operation) (w : World) :
  (∀ client_id t pid, P (connect_record client_id t pid)) →
  (∀ upd device, failed_update upd → P device → P (upd ∪ device)) →
  (∀ t device, P device → P (disconnect_update t ∪ device)) →
  Forall broker_event ops → all_records P w → all_records P (run ops w).
Proof.
  intros Hconnect Hfailed Hdisconnect. revert w.
  induction ops as [|op ops IH]; intros w Hops Hw; [done |].
  apply Forall_cons in Hops as [Hop Hops].
  change (run (op :: ops) w) with (run ops (snd (run_operation op w))).
  apply IH; [done |]. by apply all_records_broker_event.
Qed.

Lemma all_records_new (P : object → Prop) (epoch : nat → Z) :
  all_records P (World_new epoch).
Proof. intros mac r Hr. discriminate Hr. Qed.

(** X19. Under broker events alone no vital is ever stored: after every
    sequence of connect, publish and disconnect events on a fresh world, the
    [healthData] of every record is still the empty object, and each of the
    five vitals of every record is absent or [undefined]. *)
Theorem broker_events_store_no_vitals (epoch : nat → Z) (ops : list operation)
    (mac : string) (r : object) :
  Forall broker_event ops →
  record (run ops (World_new epoch)) mac = Some r →
  r !! "healthData" = Some (JObj []) ∧
  ∀ k, k ∈ vitals → r !! k = None ∨ r !! k = Some JUndefined.
Proof.
  intros Hops.
  apply (all_records_run pristine ops (World_new epoch)); [| | | done |].
  - apply connect_record_pristine.
  - intros upd device Hupd. destruct (failed_update_lookup upd Hupd).
    by apply pristine_merge.
  - intros t device. destruct (disconnect_update_clean t). by apply pristine_merge.
  - apply all_records_new.
Qed.

Lemma broker_events_store_no_vitals_witness :
  record_after_events !! "healthData" = Some (JObj []) ∧
  ∀ k, k ∈ vitals → record_after_events !! k = None
                    ∨ record_after_events !! k = Some JUndefined.
Proof.
  apply (broker_events_store_no_vitals (λ k, 1000 * Z.of_nat k)
           [Client "8e:83:c0:22:f6:04" 7;
            Publish (Some health_frame_block) (Some "8e:83:c0:22:f6:04");
            Publish (Some [xaa; x55]) (Some "8e:83:c0:22:f6:04");
            ClientDisconnect (Some "8e:83:c0:22:f6:04")] "8e:83:c0:22:f6:04").
  - repeat (apply Forall_cons; split; [exact I |]). apply Forall_nil_2.
  - exact (eq_refl (Some record_after_events)
           <: record (run [Client "8e:83:c0:22:f6:04" 7;
                           Publish (Some health_frame_block) (Some "8e:83:c0:22:f6:04");
                           Publish (Some [xaa; x55]) (Some "8e:83:c0:22:f6:04");
                           ClientDisconnect (Some "8e:83:c0:22:f6:04")]
                        (World_new (λ k, 1000 * Z.of_nat k))) "8e:83:c0:22:f6:04"
              = Some record_after_events).
Defined.

Lemma status_after_merge (upd device : object) :
  upd !! "status" = None → upd !! "disconnectTime" = None →
  status_consistent device → status_consistent (upd ∪ device).
Proof.
  intros Hs Hd. unfold status_consistent. by rewrite !lookup_union_r.
Qed.

Lemma failed_update_status (upd : object) :
  failed_update upd → upd !! "status" = None ∧ upd !! "disconnectTime" = None.
Proof. by intros [|t]. Qed.

(** X20. The status of a record follows the connect and disconnect events:
    after every sequence of broker events on a fresh world, each record is
    either 'online' with no [disconnectTime], or 'offline' with the time of
    its disconnect. And a publish event never changes the status: on every
    world, payload and client, the [status] and the [disconnectTime] of every
    record are the same in the state that the handler leaves. *)
Theorem broker_events_keep_status_consistent (epoch : nat → Z) (ops : list operation) :
  Forall broker_event ops →
  (∀ mac r, record (run ops (World_new epoch)) mac = Some r →
     (r !! "status" = Some (JStr "online") ∧ r !! "disconnectTime" = None)
     ∨ (r !! "status" = Some (JStr "offline")
        ∧ ∃ t, r !! "disconnectTime" = Some (JTime t))) ∧
  (∀ (w : World) (packet_payload : option Buffer) (client : option string) (mac : string),
     record (snd (on_publish packet_payload client w)) mac ≫= (.!! "status")
       = record w mac ≫= (.!! "status") ∧
     record (snd (on_publish packet_payload client w)) mac ≫= (.!! "disconnectTime")
       = record w mac ≫= (.!! "disconnectTime")).
Proof.
  intros Hops. split.
  - apply (all_records_run status_consistent ops (World_new epoch)); [| | | done |].
    + intros client_id t pid. by left.
    + intros upd device Hupd. destruct (failed_update_status upd Hupd).
      by apply status_after_merge.
    + intros t device _. right.
      destruct (disconnect_update_status t device) as [Hs Hd]. eauto.
    + apply all_records_new.
  - intros w packet_payload client mac.
    destruct client as [clientId|], packet_payload as [packet_payload|]; try done.
    destruct (on_publish_shape packet_payload clientId w)
      as [-> | (w1 & -> & _ & _ & _ & Hreg)]; [done |].
    cbn [snd]. unfold record.
    destruct Hreg as [-> | (device & upd & Hupd & Hdev & ->)]; [done |].
    destruct (decide (clientId = mac)) as [<- | Hne].
    + rewrite lookup_insert_eq, Hdev. cbn.
      destruct (failed_update_status upd Hupd) as [Hs Hd].
      by rewrite !lookup_union_r.
    + by rewrite lookup_insert_ne.
Qed.

Lemma broker_events_keep_status_consistent_witness :
  (record_after_events !! "status" = Some (JStr "online")
   ∧ record_after_events !! "disconnectTime" = None)
  ∨ (record_after_events !! "status" = Some (JStr "offline")
     ∧ ∃ t, record_after_events !! "disconnectTime" = Some (JTime t)).
Proof.
  apply (proj1 (broker_events_keep_status_consistent (λ k, 1000 * Z.of_nat k)
           [Client "8e:83:c0:22:f6:04" 7;
            Publish (Some health_frame_block) (Some "8e:83:c0:22:f6:04");
            Publish (Some [xaa; x55]) (Some "8e:83:c0:22:f6:04");
            ClientDisconnect (Some "8e:83:c0:22:f6:04")]
           ltac:(repeat (apply Forall_cons; split; [exact I |]); apply Forall_nil_2))
         "8e:83:c0:22:f6:04").
  exact (eq_refl (Some record_after_events)
         <: record (run [Client "8e:83:c0:22:f6:04" 7;
                         Publish (Some health_frame_block) (Some "8e:83:c0:22:f6:04");
                         Publish (Some [xaa; x55]) (Some "8e:83:c0:22:f6:04");
                         ClientDisconnect (Some "8e:83:c0:22:f6:04")]
                      (World_new (λ k, 1000 * Z.of_nat k))) "8e:83:c0:22:f6:04"
            = Some record_after_events).
Defined.

(** X21. A connect event overwrites: in the state that the handler leaves,
    the record of the id is a fresh one with status 'online', the empty alarm
    list and the empty [healthData]; no vital and no [disconnectTime] of an
    earlier record survives. One 'info' entry naming the id is pushed on the
    log buffer, and the records of the other ids are untouched. *)
Theorem on_client_overwrites (client_id : string) (pid : Z) (w : World) :
  ∃ fresh,
    record (snd (on_client client_id pid w)) client_id = Some fresh ∧
    fresh !! "status" = Some (JStr "online") ∧
    fresh !! "alarm" = Some (JArr []) ∧
    fresh !! "healthData" = Some (JObj []) ∧
    fresh !! "disconnectTime" = None ∧
    (∀ k, k ∈ vitals → fresh !! k = None) ∧
    (∀ mac, mac ≠ client_id →
            record (snd (on_client client_id pid w)) mac = record w mac) ∧
    logs (deviceManager (snd (on_client client_id pid w)))
      = push_capped (logs (deviceManager w))
          {| time := LocaleString (clock w (S (reads w))) None;
             type := "info"; content := "设备上线：" +:+ client_id |}.
Proof.
  rewrite on_client_shape. eexists. unfold record.
  cbn [snd deviceManager devices logs].
  rewrite lookup_insert_eq. split; [reflexivity |].
  do 4 (split; [reflexivity |]). split.
  { unfold vitals. intros k. rewrite !elem_of_cons, elem_of_nil.
    intros [->|[->|[->|[->|[->|[]]]]]]; reflexivity. }
  split; [| reflexivity].
  intros mac Hne. by rewrite lookup_insert_ne.
Qed.

(** X22. A disconnect event for an id that has no record creates none: in
    the state that the handler leaves, the device manager, records and log
    buffer alike, is as it was, and nothing has been published. *)
Theorem on_clientDisconnect_unknown (client_id : string) (w : World) :
  record w client_id = None →
  deviceManager (snd (on_clientDisconnect (Some client_id) w)) = deviceManager w ∧
  broker (snd (on_clientDisconnect (Some client_id) w)) = broker w.
Proof.
  unfold record. intros H. rewrite on_clientDisconnect_shape, H.
  cbn [snd deviceManager broker]. by destruct (deviceManager w).
Qed.

Lemma on_clientDisconnect_unknown_witness :
  deviceManager (snd (on_clientDisconnect (Some "00:00:00:00:00:01") world_one_device))
    = deviceManager world_one_device ∧
  broker (snd (on_clientDisconnect (Some "00:00:00:00:00:01") world_one_device))
    = broker world_one_device.
Proof.
  apply (on_clientDisconnect_unknown "00:00:00:00:00:01" world_one_device). reflexivity.
Defined.

(** X24. [clear] never raises; it empties the registry, so that [getDevice]
    answers [null] for every id and a later update of any id changes
    nothing, while the log buffer keeps its history and receives one 'info'
    entry. *)
Theorem clear_then (w : World) :
  let w' := snd (clear w) in
  fst (clear w) = Normal tt ∧
  size (devices (deviceManager w')) = 0%nat ∧
  (∀ mac, getDevice mac w' = (Normal None, w')) ∧
  (∀ mac data, updateDeviceData mac data w' = (Normal tt, w')) ∧
  logs (deviceManager w')
    = push_capped (logs (deviceManager w))
        {| time := LocaleString (clock w (reads w)) None;
           type := "info"; content := "设备列表已清空" |}.
Proof.
  intros w'. subst w'. unfold clear. rewrite bind_run. cbn [modify].
  rewrite _addLog_run. cbn [fst snd set_deviceManager set_devices deviceManager devices
    logs clock reads].
  split; [done |]. split; [apply map_size_empty |]. split.
  { intros mac. rewrite getDevice_run. cbn [deviceManager devices].
    by rewrite lookup_empty. }
  split; [| done].
  intros mac data. rewrite updateDeviceData_run. cbn [deviceManager devices].
  by rewrite lookup_empty.
Qed.
